(** * Student activity analysis: feature aggregation and evaluation harness

    A shallow embedding of the notebook [Assignemnt 2/newnotebook.ipynb]:
    the temporal segmenter (cell 1.4), the analytics base table (cell 2),
    the grade encoding, and the parts of the evaluation harness (cells 3
    and 4) that decide how data is split and scaled.

    Conventions.
    - A calendar date is the number of days since a fixed epoch ([Z]).
      The event log has no missing fields (the notebook audits this), so
      every event carries a student id, an activity name and a date.
    - A table cell is [NaN] (pandas' missing value), an integral number, a
      real number or a string.  Integral values are kept apart from reals
      so that counts stay computable; a count stored by pandas in a
      float64 column is the same number.  Real arithmetic is exact: the
      development does not depend on how floating point rounds.
    - A raised Python exception is a [Raise] outcome. *)

From Stdlib Require Import ZArith QArith Reals Lra Lia.
From stdpp Require Import gmap strings list fin_maps sorting.

Local Open Scope string_scope.
Local Open Scope Z_scope.

(** ** Values and outcomes *)

Inductive cell : Type :=
| NaN
| Int (z : Z)
| Real (r : R)
| Str (s : string).

Definition is_numeric (c : cell) : Prop :=
  match c with
  | Int _ | Real _ => True
  | NaN | Str _ => False
  end.

(** The exceptions met in the notebook's calls; pandas' [MergeError] is
    kept apart from the plain [ValueError] it derives from. *)
Inductive exn : Type :=
| ValueError (msg : string)
| NotFittedError
| MergeError (msg : string).

Inductive outcome (A : Type) : Type :=
| Ok (a : A)
| Raise (e : exn).
Arguments Ok {A} a.
Arguments Raise {A} e.

#[global] Instance outcome_ret : MRet outcome := λ A a, Ok a.

#[global] Instance outcome_bind : MBind outcome := λ A B k m,
  match m with
  | Ok a => k a
  | Raise e => Raise e
  end.

Definition Rsum (xs : list R) : R := foldr Rplus 0%R xs.

(** ** Data model *)

Record event : Type := mkEvent {
  student_id : Z;
  activity : string;
  date : Z
}.

(** [vle_log['date'].min()] and [.max()]; [None] stands for [NaT], the
    result on an empty log. *)
Definition date_min (vle_log : list event) : option Z :=
  match date <$> vle_log with
  | [] => None
  | d :: ds => Some (foldr Z.min d ds)
  end.

Definition date_max (vle_log : list event) : option Z :=
  match date <$> vle_log with
  | [] => None
  | d :: ds => Some (foldr Z.max d ds)
  end.

(** ** Temporal segmenter (cell 1.4) *)

Module Segmenter.

(** [((max_d - min_d).days + 1) // 6] *)
Definition period_len (min_d max_d : Z) : Z := ((max_d - min_d) + 1) `div` 6.

(** [[min_d + pd.Timedelta(days=i*period_len) for i in range(7)]] *)
Definition period_edges (min_d max_d : Z) : list Z :=
  (λ i, min_d + i * period_len min_d max_d) <$> seqZ 0 7.

Definition period_lbls : list string :=
  ["Early Start"; "Start"; "Early Mid"; "Mid"; "Late Mid"; "End"].

(** [bins.searchsorted(x, side='left')]: the first position whose edge is
    not below [x]. *)
Fixpoint searchsorted_left (bins : list Z) (x : Z) : nat :=
  match bins with
  | [] => O
  | b :: bs => if bool_decide (x ≤ b) then O else S (searchsorted_left bs x)
  end.

Fixpoint is_monotonic_increasing (bins : list Z) : bool :=
  match bins with
  | b :: (b' :: _) as bs => bool_decide (b ≤ b') && is_monotonic_increasing bs
  | _ => true
  end.

(** [pd.cut(x, bins, labels)] with its defaults [right=True],
    [include_lowest=False], [duplicates='raise']: bucket [i] is the
    interval [(bins[i], bins[i+1]]]; a value on or below the first edge, or
    above the last one, gets [NaN]. *)
Definition cut (x : list Z) (bins : list Z) (labels : list string)
  : outcome (list cell) :=
  if negb (is_monotonic_increasing bins) then
    Raise (ValueError "bins must increase monotonically.")
  else if bool_decide (length (remove_dups bins) < length bins)%nat
          && negb (bool_decide (length bins = 2%nat)) then
    Raise (ValueError "Bin edges must be unique")
  else if negb (bool_decide (length labels = (length bins - 1)%nat)) then
    Raise (ValueError "Bin labels must be one fewer than the number of bin edges")
  else
    Ok ((λ d,
          let ids := searchsorted_left bins d in
          if bool_decide (ids = O) || bool_decide (ids = length bins) then NaN
          else from_option Str NaN (labels !! (ids - 1)%nat)) <$> x).

(** The [period] column attached to the log, one cell per event in log
    order.  On an empty log [min_d] and [max_d] are [NaT], so are the seven
    edges, and they are rejected as bins. *)
Definition period (vle_log : list event) : outcome (list cell) :=
  match date_min vle_log, date_max vle_log with
  | Some min_d, Some max_d =>
      cut (date <$> vle_log) (period_edges min_d max_d) period_lbls
  | _, _ => Raise (ValueError "bins must increase monotonically.")
  end.

End Segmenter.

(** ** Series and data frames *)

(** A data frame: its row index (student ids), its column names in order,
    and the cell at a row and a column.  [loc] is only meaningful on
    [index] × [columns]. *)
Record DataFrame : Type := mkFrame {
  index : gset Z;
  columns : list string;
  loc : Z → string → cell
}.

Fixpoint get_col {V : Type} (c : string) (cols : list (string * V)) : option V :=
  match cols with
  | [] => None
  | (c', v) :: rest => if String.eqb c c' then Some v else get_col c rest
  end.

(** [pd.concat({name: series, ...}, axis=1)]: outer join of the series on
    their index; a series without the row leaves [NaN]. *)
Definition concat (series : list (string * gmap Z cell)) : DataFrame :=
  {| index := ⋃ ((dom ∘ snd) <$> series);
     columns := fst <$> series;
     loc s c := from_option (λ ser, default NaN (ser !! s)) NaN (get_col c series) |}.

(** [df.fillna(v)] *)
Definition fillna (v : cell) (df : DataFrame) : DataFrame :=
  {| index := index df;
     columns := columns df;
     loc s c := match loc df s c with NaN => v | x => x end |}.

(** [left.join(right, how='left')] on the index, without suffixes:
    overlapping column names are an error, rows of [left] without a
    partner get [NaN] in the columns of [right]. *)
Definition join (left right : DataFrame) : outcome DataFrame :=
  if bool_decide (Forall (λ c, c ∉ columns left) (columns right)) then
    Ok {| index := index left;
          columns := (columns left ++ columns right)%list;
          loc s c :=
            if bool_decide (c ∈ columns left) then loc left s c
            else if bool_decide (s ∈ index right) then loc right s c
            else NaN |}
  else Raise (ValueError "columns overlap but no suffix specified").

(** [df[c] = ser]: overwrite the column, or append it. *)
Definition setitem (df : DataFrame) (c : string) (ser : Z → cell) : DataFrame :=
  {| index := index df;
     columns := if bool_decide (c ∈ columns df) then columns df
                else (columns df ++ [c])%list;
     loc s c' := if bool_decide (c' = c) then ser s else loc df s c' |}.

(** [log.groupby(key)]: the events of each key, in log order. *)
Definition groupby {K : Type} `{Countable K} (key : event → K)
    (vle_log : list event) : gmap K (list event) :=
  foldr (λ e groups, <[key e := e :: default [] (groups !! key e)]> groups) ∅ vle_log.

(** [.size()] *)
Definition group_size {K : Type} `{Countable K} (groups : gmap K (list event))
  : gmap K cell :=
  (λ g, Int (Z.of_nat (length g))) <$> groups.

(** [['date'].nunique()] *)
Definition nunique_date {K : Type} `{Countable K} (groups : gmap K (list event))
  : gmap K cell :=
  (λ g, Int (Z.of_nat (length (remove_dups (date <$> g))))) <$> groups.

(** [.unstack(fill_value=v)] of a series indexed by (student, activity). *)
Definition unstack (v : cell) (ser : gmap (Z * string) cell) : DataFrame :=
  {| index := set_map fst (dom ser);
     columns := elements (set_map (D:=gset string) snd (dom ser));
     loc s a := default v (ser !! (s, a)) |}.

(** ** Feature aggregator and ABT assembler (cell 2) *)

Module ABT.

Definition date_le (e1 e2 : event) : Prop := date e1 ≤ date e2.

#[global] Instance date_le_dec e1 e2 : Decision (date_le e1 e2).
Proof. unfold date_le; apply _. Defined.

(** [df.sort_values('date')] *)
Definition sort_values_date (df : list event) : list event :=
  merge_sort date_le df.

(** [.diff()]: the first entry has no predecessor ([NaT]). *)
Fixpoint diff_from (prev : Z) (xs : list Z) : list (option Z) :=
  match xs with
  | [] => []
  | x :: xs' => Some (x - prev) :: diff_from x xs'
  end.

Definition diff (xs : list Z) : list (option Z) :=
  match xs with
  | [] => []
  | x :: xs' => None :: diff_from x xs'
  end.

(** [.dropna()] *)
Definition dropna (xs : list (option Z)) : list Z := omap (λ x, x) xs.

(** [Series.std(ddof)]: with [count <= ddof] the result is [NaN];
    otherwise the square root of the sum of squared deviations from the
    mean over [count - ddof]. *)
Definition std (ddof : nat) (xs : list Z) : cell :=
  let count := length xs in
  if bool_decide (count ≤ ddof)%nat then NaN
  else
    let avg := (Rsum (IZR <$> xs) / INR count)%R in
    let sqr := Rsum ((λ x, Rsqr (avg - IZR x)) <$> xs) in
    Real (sqrt (sqr / (INR count - INR ddof))).

Definition stdev_gap (df : list event) : cell :=
  if bool_decide (length df < 2)%nat then Int 0
  else
    let gaps := dropna (diff (date <$> sort_values_date df)) in
    if bool_decide (gaps = []) then Int 0 else std 1 gaps.

(** [min_d + (max_d - min_d)/2]: halving a day count can land on noon, so
    the midpoint is a rational number of days. *)
Definition midpoint (vle_log : list event) : option Q :=
  min_d ← date_min vle_log;
  max_d ← date_max vle_log;
  Some (inject_Z min_d + inject_Z (max_d - min_d) / 2)%Q.

#[global] Instance Qle_decision (x y : Q) : Decision (x <= y)%Q :=
  decide (Qnum x * QDen y ≤ Qnum y * QDen x).

#[global] Instance Qlt_decision (x y : Q) : Decision (x < y)%Q :=
  decide (Qnum x * QDen y < Qnum y * QDen x).

(** [vle_log['date'] <= midpoint] and [vle_log['date'] > midpoint];
    comparisons with [NaT] are false. *)
Definition le_midpoint (m : option Q) (e : event) : Prop :=
  from_option (λ q, inject_Z (date e) <= q)%Q False m.

Definition gt_midpoint (m : option Q) (e : event) : Prop :=
  from_option (λ q, q < inject_Z (date e))%Q False m.

#[global] Instance le_midpoint_dec m e : Decision (le_midpoint m e).
Proof. destruct m; simpl; apply _. Defined.

#[global] Instance gt_midpoint_dec m e : Decision (gt_midpoint m e).
Proof. destruct m; simpl; apply _. Defined.

Definition activity_pivot (vle_log : list event) : DataFrame :=
  unstack (Int 0) (group_size (groupby (λ e, (student_id e, activity e)) vle_log)).

Definition total_acts (vle_log : list event) : gmap Z cell :=
  group_size (groupby student_id vle_log).

Definition active_days (vle_log : list event) : gmap Z cell :=
  nunique_date (groupby student_id vle_log).

Definition activity_consist (vle_log : list event) : gmap Z cell :=
  stdev_gap <$> groupby student_id vle_log.

Definition first_half (vle_log : list event) : gmap Z cell :=
  group_size (groupby student_id (filter (le_midpoint (midpoint vle_log)) vle_log)).

Definition second_half (vle_log : list event) : gmap Z cell :=
  group_size (groupby student_id (filter (gt_midpoint (midpoint vle_log)) vle_log)).

Definition aggregate_names : list string :=
  ["total_activities"; "active_days"; "activity_consistency";
   "first_half_activities"; "second_half_activities"].

Definition features (vle_log : list event) : DataFrame :=
  fillna (Int 0)
    (concat [("total_activities", total_acts vle_log);
             ("active_days", active_days vle_log);
             ("activity_consistency", activity_consist vle_log);
             ("first_half_activities", first_half vle_log);
             ("second_half_activities", second_half vle_log)]).

(** [vle_grades.set_index('student_id')]: the label table has the columns
    [student_id] and [final_grade], and one row per student. *)
Definition grades_frame (vle_grades : gmap Z string) : DataFrame :=
  {| index := dom vle_grades;
     columns := ["final_grade"];
     loc s c := from_option Str NaN (vle_grades !! s) |}.

(** On a log without rows [groupby('student_id').apply(stdev_gap)] has no
    group to call [stdev_gap] on and returns an empty frame instead of a
    series; [pd.concat] then gives [features] column names of two levels,
    and the first join refuses to merge them with the one-level columns of
    [activity_pivot]. *)
Definition abt (vle_log : list event) (vle_grades : gmap Z string)
  : outcome DataFrame :=
  if bool_decide (vle_log = []) then
    Raise (MergeError "Not allowed to merge between different levels")
  else
    joined ← join (features vle_log) (activity_pivot vle_log);
    join (fillna (Int 0) joined) (grades_frame vle_grades).

(** *** Numeric grade column *)

Definition GRADE_MAP : gmap string Z :=
  {[ "fail" := 1; "pass" := 2; "merit" := 3; "distinction" := 4 ]}.

(** [Series.map(d)]: a value that is not a key of [d] becomes [NaN]. *)
Definition map_dict (d : gmap string Z) (v : cell) : cell :=
  match v with
  | Str g => from_option Int NaN (d !! g)
  | _ => NaN
  end.

Definition add_grade_numeric (df : DataFrame) : DataFrame :=
  setitem df "grade_numeric" (λ s, map_dict GRADE_MAP (loc df s "final_grade")).

(** The table after both cells. *)
Definition assemble (vle_log : list event) (vle_grades : gmap Z string)
  : outcome DataFrame :=
  table ← abt vle_log vle_grades;
  Ok (add_grade_numeric table).

End ABT.

(** ** Evaluation harness (cells 3 and 4) *)

Module Harness.

(** *** Feasibility checks made by the splitters

    The notebook calls [train_test_split(X, y, test_size=.25, stratify=y)]
    and [cross_val_score(..., cv=StratifiedKFold(n_splits=5, shuffle=True))]
    and adds no check of its own; warnings are switched off in cell 0.
    What follows is the argument validation these two calls perform before
    any sample is drawn or any model is fit.

    A label column such as [y = abt['final_grade']] holds the grade of each
    row, or [NaN] (here [None]) for a student without a label. *)

(** [y = abt['final_grade']], the rows in the order of the index. *)
Definition final_grade_column (abt : DataFrame) : list (option string) :=
  (λ s, match loc abt s "final_grade" with
        | Str g => Some g
        | _ => None
        end) <$> merge_sort Z.le (elements (index abt)).

(** [check_array(y, ensure_2d=False, dtype=None)]: a missing label is
    refused, and so is a column without rows. *)
Definition check_labels (y : list (option string)) : outcome (list string) :=
  if bool_decide (None ∈ y) then
    Raise (ValueError "Input contains NaN")
  else if bool_decide (y = []) then
    Raise (ValueError "Found array with 0 sample(s)")
  else Ok (omap (λ g, g) y).

(** [np.unique(y)] and [np.bincount(y_indices)]. *)
Definition classes (y : list string) : list string := remove_dups y.

Definition class_counts (y : list string) : list nat :=
  (λ c, length (filter (λ g, g = c) y)) <$> classes y.

(** [ceil(test_size * n_samples)] for [test_size = .25], and the rest. *)
Definition n_test (n_samples : nat) : nat := Nat.div (n_samples + 3) 4.
Definition n_train (n_samples : nat) : nat := (n_samples - n_test n_samples)%nat.

(** The sizes are validated first, then the stratification column. *)
Definition train_test_split_checks (y : list (option string))
  : outcome (nat * nat) :=
  let n_samples := length y in
  if bool_decide (n_train n_samples = O) then
    Raise (ValueError "the resulting train set will be empty")
  else
    y ← check_labels y;
    if bool_decide (Exists (λ k, k < 2)%nat (class_counts y)) then
      Raise (ValueError "The least populated class in y has only 1 member")
    else if bool_decide (n_train n_samples < length (classes y))%nat then
      Raise (ValueError "The train_size should be greater or equal to the number of classes")
    else if bool_decide (n_test n_samples < length (classes y))%nat then
      Raise (ValueError "The test_size should be greater or equal to the number of classes")
    else Ok (n_train n_samples, n_test n_samples).



(** *** Standardisation *)

(** [X[cols]] as an array: one list of values per row. *)
Definition select (cols : list string) (X : list (string → R)) : list (list R) :=
  (λ row, row <$> cols) <$> X.

Definition n_features (X : list (list R)) : nat := from_option length O (head X).

Definition column (j : nat) (X : list (list R)) : list R :=
  (λ row, default 0%R (row !! j)) <$> X.

Definition mean (xs : list R) : R := (Rsum xs / INR (length xs))%R.

(** Population variance, as [StandardScaler] uses it. *)
Definition var (xs : list R) : R := mean ((λ x, Rsqr (x - mean xs)) <$> xs).

(** A constant column is left unscaled. *)
Definition handle_zeros_in_scale (s : R) : R :=
  if Req_dec_T s 0 then 1%R else s.

(** The fitted attributes of a [StandardScaler]; the object itself is
    [None] until it has been fit. *)
Record fitted : Type := mkFitted {
  mean_ : list R;
  scale_ : list R
}.

Definition check_array (X : list (list R)) : outcome unit :=
  if bool_decide (X = []) then
    Raise (ValueError "Found array with 0 sample(s)")
  else if bool_decide (n_features X = O) then
    Raise (ValueError "Found array with 0 feature(s)")
  else Ok ().

Definition statistics (X : list (list R)) : fitted :=
  {| mean_ := (λ j, mean (column j X)) <$> seq 0 (n_features X);
     scale_ := (λ j, handle_zeros_in_scale (sqrt (var (column j X))))
                 <$> seq 0 (n_features X) |}.

(** [scaler.fit(X)] forgets whatever the object had learnt before. *)
Definition fit (self : option fitted) (X : list (list R))
  : outcome (option fitted) :=
  _ ← check_array X;
  Ok (Some (statistics X)).

Definition standardize (st : fitted) (X : list (list R)) : list (list R) :=
  (λ row, zip_with (λ x ms, ((x - ms.1) / ms.2)%R) row
            (zip (mean_ st) (scale_ st))) <$> X.

(** [scaler.transform(X)] *)
Definition transform (self : option fitted) (X : list (list R))
  : outcome (list (list R)) :=
  match self with
  | None => Raise NotFittedError
  | Some st =>
      _ ← check_array X;
      if bool_decide (n_features X = length (mean_ st)) then
        Ok (standardize st X)
      else Raise (ValueError "X has a different number of features than StandardScaler is expecting")
  end.

(** [scaler.fit_transform(X)]: the updated object and the scaled array. *)
Definition fit_transform (self : option fitted) (X : list (list R))
  : outcome (option fitted * list (list R)) :=
  self' ← fit self X;
  Xs ← transform self' X;
  Ok (self', Xs).

Record subset_result : Type := mkResult {
  Subset : string;
  Model : string;
  Accuracy : R;
  F1 : R
}.

Section Evaluation.

(** The classifiers and the metrics are black boxes that may raise:
    [RF Xtr y_train Xte] is [RandomForestClassifier(...).fit(Xtr, y_train).predict(Xte)],
    and likewise for the logistic regression. *)
Variables RF LR
  : list (list R) → list string → list (list R) → outcome (list string).
Variables accuracy_score f1_macro : list string → list string → outcome R.

(** The two partitions made in cell 3.1. *)
Variables X_train X_test : list (string → R).
Variables y_train y_test : list string.

(** Cell 3.1: the scaler is created and fit on all columns of the training
    partition. *)
Definition prepare (all_columns : list string)
  : outcome (option fitted * list (list R) * list (list R)) :=
  let scaler := None in
  '(scaler, X_train_s) ← fit_transform scaler (select all_columns X_train);
  X_test_s ← transform scaler (select all_columns X_test);
  Ok (scaler, X_train_s, X_test_s).

(** Cell 4: the loop over the named subsets, threading the one [scaler]
    object and appending two results per subset.  An exception of a model
    or of a metric ends the loop. *)
Fixpoint evaluate_subsets (scaler : option fitted)
    (subsets : list (string * list string))
    (subset_results : list subset_result)
  : outcome (option fitted * list subset_result) :=
  match subsets with
  | [] => Ok (scaler, subset_results)
  | (name, cols) :: rest =>
      '(scaler, Xtr) ← fit_transform scaler (select cols X_train);
      Xte ← transform scaler (select cols X_test);
      rf_pred ← RF Xtr y_train Xte;
      rf_acc ← accuracy_score y_test rf_pred;
      rf_f1 ← f1_macro y_test rf_pred;
      let subset_results :=
        (subset_results ++ [mkResult name "RF" rf_acc rf_f1])%list in
      lr_pred ← LR Xtr y_train Xte;
      lr_acc ← accuracy_score y_test lr_pred;
      lr_f1 ← f1_macro y_test lr_pred;
      let subset_results :=
        (subset_results ++ [mkResult name "LR" lr_acc lr_f1])%list in
      evaluate_subsets scaler rest subset_results
  end.

End Evaluation.

End Harness.

(** ** Feature subsets (cell 4) *)

Module Subsets.

(** [t in c] on strings: [t] occurs somewhere in [c]. *)
Fixpoint contains (t c : string) : bool :=
  String.prefix t c ||
  match c with
  | EmptyString => false
  | String _ c' => contains t c'
  end.

Definition engagement_tokens : list string :=
  ["activity"; "engagement"; "visit"; "view"; "attempt"; "download"].

(** [imp.head(5).index.tolist()], [imp_index] being the column names in
    the order of their importance. *)
Definition top5_feats (imp_index : list string) : list string :=
  take 5 imp_index.

Definition eng_feats (X_columns : list string) : list string :=
  filter (λ c, Exists (λ t, contains t c) engagement_tokens) X_columns.

Definition freq_feats (X_columns : list string) : list string :=
  filter (λ c, ¬ contains "ratio" c ∧ ¬ contains "consistency" c) X_columns.

Definition subsets (X_columns imp_index : list string)
  : list (string * list string) :=
  [("All Features", X_columns);
   ("Top 5 Features", top5_feats imp_index);
   ("Engagement Features", eng_feats X_columns);
   ("Frequency Features", freq_feats X_columns)].

End Subsets.

(** ** Metrics (cells 3.2 to 3.5) *)

Module Metrics.

(** [sorted(y.unique())] *)
Definition sorted_unique (y : list string) : list string :=
  merge_sort String.le (remove_dups y).

(** The position of a label in [labels]; were a label repeated, its last
    position would count. *)
Fixpoint label_to_ind (labels : list string) (l : string) : option nat :=
  match labels with
  | [] => None
  | l' :: rest =>
      match label_to_ind rest l with
      | Some i => Some (S i)
      | None => if decide (l' = l) then Some O else None
      end
  end.

(** [confusion_matrix(y_true, y_pred, labels=labels)]: entry [(i, j)]
    counts the samples whose true label is [labels[i]] and whose predicted
    label is [labels[j]]; a sample with a label outside [labels] is left
    out. *)
Definition confusion_matrix (y_true y_pred labels : list string)
  : outcome (list (list Z)) :=
  if bool_decide (length y_true ≠ length y_pred) then
    Raise (ValueError "Found input variables with inconsistent numbers of samples")
  else if bool_decide (labels = []) then
    Raise (ValueError "'labels' should contains at least one label.")
  else if bool_decide (y_true = []) then
    Ok ((λ _, (λ _, 0) <$> labels) <$> labels)
  else if bool_decide (Forall (λ l, l ∉ y_true) labels) then
    Raise (ValueError "At least one label specified must be in y_true")
  else
    Ok ((λ i, (λ j,
           Z.of_nat (length (filter
             (λ tp, label_to_ind labels tp.1 = Some i ∧
                    label_to_ind labels tp.2 = Some j)
             (zip y_true y_pred))))
          <$> seq 0 (length labels))
        <$> seq 0 (length labels)).

(** [accuracy_score(y_true, y_pred)]: the fraction of samples predicted
    right; the mean over no sample at all is [NaN], here [None]. *)
Definition accuracy_score (y_true y_pred : list string) : outcome (option Q) :=
  if bool_decide (length y_true ≠ length y_pred) then
    Raise (ValueError "Found input variables with inconsistent numbers of samples")
  else if bool_decide (y_true = []) then Ok None
  else
    Ok (Some (Z.of_nat (length (filter (λ tp, tp.1 = tp.2) (zip y_true y_pred)))
              # Pos.of_nat (length y_true))).

End Metrics.

(** ** Vocabulary of the specification *)

(** The events of one student, in log order. *)
Definition events_of (s : Z) (log : list event) : list event :=
  filter (λ e, student_id e = s) log.

(** The students of the Event Store. *)
Definition students (log : list event) : gset Z := dom (groupby student_id log).

(** The day-gaps between consecutive entries of a list of dates. *)
Definition day_gaps (ds : list Z) : list Z :=
  zip_with (λ a b, b - a) ds (tail ds).

(** The sample standard deviation (divisor [n - 1]); it is undefined for
    fewer than two samples. *)
Definition sample_std (xs : list Z) : option R :=
  let n := length xs in
  if bool_decide (2 ≤ n)%nat then
    let mean := (Rsum (IZR <$> xs) / INR n)%R in
    Some (sqrt (Rsum ((λ x, Rsqr (IZR x - mean)) <$> xs) / (INR n - 1)))
  else None.

(** The day-gaps between a student's consecutive sorted event dates. *)
Definition sorted_day_gaps (s : Z) (log : list event) : list Z :=
  day_gaps (merge_sort Z.le (date <$> events_of s log)).

(** The four recognised grades and the inverse of the grade encoding,
    [{1: fail, 2: pass, 3: merit, 4: distinction}]. *)
Definition recognized_grades : list string :=
  ["fail"; "pass"; "merit"; "distinction"].

Definition GRADE_INV : gmap Z string :=
  {[ 1 := "fail"; 2 := "pass"; 3 := "merit"; 4 := "distinction" ]}.

Definition decode_grade (c : cell) : option string :=
  match c with
  | Int n => GRADE_INV !! n
  | _ => None
  end.

(** The column names the assembler itself introduces before the joins: an
    activity with one of these names makes a join fail on overlapping
    columns. *)
Definition reserved_names : list string :=
  "final_grade" :: ABT.aggregate_names.

Definition fresh_activities (log : list event) : Prop :=
  Forall (λ e, activity e ∉ reserved_names) log.

(** The number of events of a student with a given activity. *)
Definition activity_count (s : Z) (a : string) (log : list event) : Z :=
  Z.of_nat (length (filter (λ e, student_id e = s ∧ activity e = a) log)).

(** Both partitions restricted to [cols] and standardised with the
    statistics of the training partition alone. *)
Definition scaled_with_training_statistics (cols : list string)
    (X_train X_test : list (string → R)) : list (list R) * list (list R) :=
  let stats := Harness.statistics (Harness.select cols X_train) in
  (Harness.standardize stats (Harness.select cols X_train),
   Harness.standardize stats (Harness.select cols X_test)).

(** The labels a label column holds, missing ones left out. *)
Definition labels (y : list (option string)) : list string :=
  omap (λ g, g) y.

(** The mean and the variance of feature [c] over the rows of a
    partition. *)
Definition column_mean (c : string) (X : list (string → R)) : R :=
  (Rsum ((λ row, row c) <$> X) / INR (length X))%R.

Definition column_variance (c : string) (X : list (string → R)) : R :=
  (Rsum ((λ row, Rsqr (row c - column_mean c X)) <$> X) / INR (length X))%R.

(** The divisor of a feature: the square root of its variance, or 1 for a
    feature that is constant on the partition. *)
Definition column_scale (c : string) (X : list (string → R)) : R :=
  if Req_dec_T (column_variance c X) 0 then 1%R
  else sqrt (column_variance c X).

(** The standardisation statistics of the columns [cols], computed from
    the training partition. *)
Definition training_statistics (cols : list string)
    (X_train : list (string → R)) : Harness.fitted :=
  {| Harness.mean_ := (λ c, column_mean c X_train) <$> cols;
     Harness.scale_ := (λ c, column_scale c X_train) <$> cols |}.

(** A partition [X] restricted to [cols], every value shifted by the mean
    and divided by the scale its feature has on [X_train]. *)
Definition standard_scores (cols : list string)
    (X_train X : list (string → R)) : list (list R) :=
  (λ row, (λ c, ((row c - column_mean c X_train) / column_scale c X_train)%R)
            <$> cols) <$> X.

(** The two results of one subset, from models that are given both
    partitions standardised with the training statistics of the subset's
    own columns; and the results of the subsets one after the other. *)
Definition results_of_subset
    (RF LR : list (list R) → list string → list (list R) → outcome (list string))
    (accuracy_score f1_macro : list string → list string → outcome R)
    (X_train X_test : list (string → R)) (y_train y_test : list string)
    (subset : string * list string) : outcome (list Harness.subset_result) :=
  let Xtr := standard_scores subset.2 X_train X_train in
  let Xte := standard_scores subset.2 X_train X_test in
  rf_pred ← RF Xtr y_train Xte;
  rf_acc ← accuracy_score y_test rf_pred;
  rf_f1 ← f1_macro y_test rf_pred;
  lr_pred ← LR Xtr y_train Xte;
  lr_acc ← accuracy_score y_test lr_pred;
  lr_f1 ← f1_macro y_test lr_pred;
  Ok [Harness.mkResult subset.1 "RF" rf_acc rf_f1;
      Harness.mkResult subset.1 "LR" lr_acc lr_f1].

Fixpoint results_of_subsets
    (RF LR : list (list R) → list string → list (list R) → outcome (list string))
    (accuracy_score f1_macro : list string → list string → outcome R)
    (X_train X_test : list (string → R)) (y_train y_test : list string)
    (subsets : list (string * list string))
  : outcome (list Harness.subset_result) :=
  match subsets with
  | [] => Ok []
  | subset :: rest =>
      new ← results_of_subset RF LR accuracy_score f1_macro
              X_train X_test y_train y_test subset;
      more ← results_of_subsets RF LR accuracy_score f1_macro
               X_train X_test y_train y_test rest;
      Ok (new ++ more)%list
  end.

(** A call of a model or of a metric that raises [e]. *)
Definition model_raises
    (RF LR : list (list R) → list string → list (list R) → outcome (list string))
    (accuracy_score f1_macro : list string → list string → outcome R)
    (y_train y_test : list string) (e : exn) : Prop :=
  (∃ Xtr Xte, RF Xtr y_train Xte = Raise e ∨ LR Xtr y_train Xte = Raise e) ∨
  (∃ pred, accuracy_score y_test pred = Raise e ∨ f1_macro y_test pred = Raise e).

(** ** Descriptive cells (cells 1.1 to 1.4) *)

Module Charts.
Import Stdlib.Strings.Ascii.

(** [str.upper] and [str.lower] on one character of ASCII text. *)
Definition upper (c : Ascii.ascii) : Ascii.ascii :=
  let n := Ascii.N_of_ascii c in
  if bool_decide (97 ≤ n ≤ 122)%N then Ascii.ascii_of_N (n - 32) else c.

Definition lower (c : Ascii.ascii) : Ascii.ascii :=
  let n := Ascii.N_of_ascii c in
  if bool_decide (65 ≤ n ≤ 90)%N then Ascii.ascii_of_N (n + 32) else c.

Fixpoint map_string (f : Ascii.ascii → Ascii.ascii) (s : string) : string :=
  match s with
  | EmptyString => EmptyString
  | String c s' => String (f c) (map_string f s')
  end.

(** [name.split(sep)]: the pieces between the separators, empty pieces
    included; the result is never empty. *)
Fixpoint split (sep : Ascii.ascii) (name : string) : list string :=
  match name with
  | EmptyString => [EmptyString]
  | String c name' =>
      if Ascii.eqb c sep then EmptyString :: split sep name'
      else match split sep name' with
           | w :: ws => String c w :: ws
           | [] => [String c EmptyString]
           end
  end.

(** [w.capitalize()]: first character in upper case, the rest in lower
    case. *)
Definition capitalize (w : string) : string :=
  match w with
  | EmptyString => EmptyString
  | String c w' => String (upper c) (map_string lower w')
  end.

(** [sep.join(words)] *)
Fixpoint join (sep : string) (ws : list string) : string :=
  match ws with
  | [] => EmptyString
  | w :: ws' =>
      match ws' with
      | [] => w
      | _ :: _ => String.append w (String.append sep (join sep ws'))
      end
  end.

Definition camel (name : string) : string :=
  join " " (capitalize <$> split "_"%char name).

(** [dt.day_name()], dates being counted from 1 January 1970, a
    Thursday. *)
Definition day_names : list string :=
  ["Monday"; "Tuesday"; "Wednesday"; "Thursday"; "Friday"; "Saturday";
   "Sunday"].

Definition day_name (d : Z) : string :=
  default "" (day_names !! Z.to_nat ((d + 3) `mod` 7)).

(** [ser.reindex(labels)]: the series in the order of [labels], [NaN]
    where the series has no such entry. *)
Definition reindex (labels : list string) (ser : gmap string cell)
  : list (string * cell) :=
  (λ l, (l, default NaN (ser !! l))) <$> labels.

(** [vle_log.groupby('day_of_week').size().reindex([...])] *)
Definition daily (vle_log : list event) : list (string * cell) :=
  reindex day_names (group_size (groupby (λ e, day_name (date e)) vle_log)).

Definition has_label (l : string) (c : cell) : Prop :=
  match c with
  | Str l' => l' = l
  | _ => False
  end.

#[global] Instance has_label_dec l c : Decision (has_label l c).
Proof. destruct c; simpl; apply _. Defined.

(** [vle_log.groupby('period').size()]: [period] is categorical, so the
    result has one count per category, in category order; rows whose
    period is [NaN] belong to no group. *)
Definition period_totals (vle_log : list event) : outcome (list (string * cell)) :=
  periods ← Segmenter.period vle_log;
  Ok ((λ l, (l, Int (Z.of_nat (length (filter (has_label l) periods)))))
        <$> Segmenter.period_lbls).

End Charts.

Import Stdlib.Strings.Ascii.

(** ASCII text, and names in snake case: lower-case letters, digits and
    underscores. *)
Definition is_ascii (c : Ascii.ascii) : Prop := (Ascii.N_of_ascii c < 128)%N.

Definition is_snake (c : Ascii.ascii) : Prop :=
  let n := Ascii.N_of_ascii c in
  (97 ≤ n ≤ 122)%N ∨ (48 ≤ n ≤ 57)%N ∨ n = 95%N.

Fixpoint string_Forall (P : Ascii.ascii → Prop) (s : string) : Prop :=
  match s with
  | EmptyString => True
  | String c s' => P c ∧ string_Forall P s'
  end.

(** Back from a chart label to a name: lower case, underscores for
    spaces. *)
Definition uncamel (label : string) : string :=
  Charts.map_string
    (λ c, if Ascii.eqb c " "%char then "_"%char else Charts.lower c) label.

(** [camel] read character by character: an underscore becomes a space,
    the first character of a word goes to upper case, the others to lower
    case. *)
Fixpoint camel_chars (word_start : bool) (name : string) : string :=
  match name with
  | EmptyString => EmptyString
  | String c name' =>
      if Ascii.eqb c "_"%char then String " "%char (camel_chars true name')
      else String (if word_start then Charts.upper c else Charts.lower c)
                  (camel_chars false name')
  end.

(** The cell [cut] gives a date when the seven period edges are valid
    bins. *)
Definition period_cell (min_d max_d d : Z) : cell :=
  let ids := Segmenter.searchsorted_left (Segmenter.period_edges min_d max_d) d in
  if bool_decide (ids = O) || bool_decide (ids = 7%nat) then NaN
  else from_option Str NaN (Segmenter.period_lbls !! (ids - 1)%nat).

(** The label of a period cell, empty for a cell without label. *)
Definition label_of (c : cell) : string :=
  match c with
  | Str l => l
  | _ => ""
  end.

(** The diagonal sum and the sum of all entries of a matrix. *)
Definition trace (m : list (list Z)) : Z :=
  foldr Z.add 0 ((λ i, default 0 (m !! i ≫= (.!! i))) <$> seq 0 (length m)).

Definition matrix_sum (m : list (list Z)) : Z :=
  foldr Z.add 0 (foldr Z.add 0 <$> m).

(** The matrix that counts the elements of a list by two keys below
    [n]. *)
Definition count_matrix {A : Type} (k1 k2 : A → nat) (n : nat) (l : list A)
  : list (list Z) :=
  (λ i, (λ j, Z.of_nat (length (filter (λ x, k1 x = i ∧ k2 x = j) l)))
          <$> seq 0 n) <$> seq 0 n.

(** The position of a label, the number of labels standing for "not a
    label". *)
Definition ind_or_len (labels : list string) (l : string) : nat :=
  default (length labels) (Metrics.label_to_ind labels l).

(** The number of a table's cells, [NaN] counting for nothing. *)
Definition cell_count (c : cell) : Z :=
  match c with
  | Int n => n
  | _ => 0
  end.

Definition sum_counts (ser : list (string * cell)) : Z :=
  foldr Z.add 0 ((cell_count ∘ snd) <$> ser).

(** ** Sample inputs *)

(** Eight days, so the bucket width rounds down to one day. *)
Definition rounding_log : list event :=
  [mkEvent 1 "quiz" 0; mkEvent 1 "forum" 3; mkEvent 2 "quiz" 7].

(** Student 1 has two events, student 2 one, student 3 five over ten days. *)
Definition sample_log : list event :=
  [mkEvent 1 "quiz" 0; mkEvent 1 "forum" 3; mkEvent 2 "quiz" 4;
   mkEvent 3 "quiz" 0; mkEvent 3 "video" 2; mkEvent 3 "quiz" 5;
   mkEvent 3 "forum" 7; mkEvent 3 "quiz" 10].

(** Four days of activity. *)
Definition short_log : list event :=
  [mkEvent 1 "quiz" 3; mkEvent 2 "forum" 2; mkEvent 1 "quiz" 5].

(** A student active once a week for four weeks. *)
Definition regular_log : list event :=
  [mkEvent 7 "quiz" 21; mkEvent 7 "forum" 0; mkEvent 7 "quiz" 14;
   mkEvent 7 "video" 7; mkEvent 8 "quiz" 3].


(** Two students with features "a" and "b", one student held out. *)
Definition sample_X_train : list (string → R) :=
  [λ c, if String.eqb c "a" then 1%R else 4%R;
   λ c, if String.eqb c "a" then 3%R else 4%R].

Definition sample_X_test : list (string → R) :=
  [λ c, if String.eqb c "a" then 5%R else 0%R].

(** A classifier that repeats the training labels, a metric that is
    always 1, and two named subsets. *)
Definition sample_classifier (Xtr : list (list R)) (y : list string)
    (Xte : list (list R)) : outcome (list string) := Ok y.

Definition sample_score (y_true y_pred : list string) : outcome R := Ok 1%R.

Definition sample_subsets : list (string * list string) :=
  [("All Features", ["a"; "b"]); ("Top 5 Features", ["a"])].

(** The feature columns of a log with two activities, and a ranking of
    them. *)
Definition sample_acts : list string := ["quiz_attempt"; "forum_post"].

Definition sample_X_columns : list string :=
  (ABT.aggregate_names ++ sample_acts)%list.

Definition sample_imp_index : list string := reverse sample_X_columns.

(** A training and a test partition over these columns. *)
Definition sample_rows_train : list (string → R) :=
  [λ c, 1%R; λ c, if String.eqb c "quiz_attempt" then 3%R else 2%R].

Definition sample_rows_test : list (string → R) := [λ c, 2%R].

(** The labels of a test partition and predictions for them, three of
    the four right. *)
Definition sample_y : list string :=
  ["pass"; "fail"; "merit"; "pass"; "distinction"; "fail"; "pass"; "merit"].

Definition sample_y_test : list string := ["pass"; "fail"; "merit"; "pass"].

Definition sample_pred : list string := ["pass"; "pass"; "merit"; "pass"].

(** A label table with an unrecognised grade. *)
Definition sample_grades : gmap Z string :=
  {[ 1 := "pass"; 2 := "honors" ]}.

(** * Properties *)

(** ** Shared lemmas *)

Lemma Rsum_cons (x : R) (xs : list R) : Rsum (x :: xs) = (x + Rsum xs)%R.
Proof. done. Qed.

Lemma remove_dups_NoDup {A : Type} `{EqDecision A} (l : list A) :
  NoDup l → remove_dups l = l.
Proof.
  induction 1 as [|x l Hx Hl IH]; simpl; [done|].
  destruct (decide_rel elem_of x l); [done|]. by rewrite IH.
Qed.

Lemma foldr_min_spec (d : Z) (ds : list Z) :
  foldr Z.min d ds ∈ d :: ds ∧ ∀ x, x ∈ d :: ds → foldr Z.min d ds ≤ x.
Proof.
  induction ds as [|d' ds [IHin IHle]]; cbn [foldr].
  - split; [left|]. intros x ->%list_elem_of_singleton. lia.
  - split.
    + destruct (Z.min_spec d' (foldr Z.min d ds)) as [[_ E]|[_ E]]; rewrite E.
      * right; left.
      * apply elem_of_cons in IHin as [->|?]; [left|by do 2 right].
    + intros x Hx. pose proof (Z.le_min_l d' (foldr Z.min d ds)).
      pose proof (Z.le_min_r d' (foldr Z.min d ds)).
      apply elem_of_cons in Hx as [->|[->|Hx]%elem_of_cons].
      * specialize (IHle d ltac:(left)). lia.
      * lia.
      * specialize (IHle x ltac:(by right)). lia.
Qed.

Lemma foldr_max_spec (d : Z) (ds : list Z) :
  foldr Z.max d ds ∈ d :: ds ∧ ∀ x, x ∈ d :: ds → x ≤ foldr Z.max d ds.
Proof.
  induction ds as [|d' ds [IHin IHle]]; cbn [foldr].
  - split; [left|]. intros x ->%list_elem_of_singleton. lia.
  - split.
    + destruct (Z.max_spec d' (foldr Z.max d ds)) as [[_ E]|[_ E]]; rewrite E.
      * apply elem_of_cons in IHin as [->|?]; [left|by do 2 right].
      * right; left.
    + intros x Hx. pose proof (Z.le_max_l d' (foldr Z.max d ds)).
      pose proof (Z.le_max_r d' (foldr Z.max d ds)).
      apply elem_of_cons in Hx as [->|[->|Hx]%elem_of_cons].
      * specialize (IHle d ltac:(left)). lia.
      * lia.
      * specialize (IHle x ltac:(by right)). lia.
Qed.

Lemma date_min_spec (log : list event) :
  match date_min log with
  | None => log = []
  | Some m => (∃ e, e ∈ log ∧ date e = m) ∧ ∀ e, e ∈ log → m ≤ date e
  end.
Proof.
  unfold date_min. destruct log as [|e0 log]; [done|].
  rewrite fmap_cons.
  destruct (foldr_min_spec (date e0) (date <$> log)) as [Hin Hle].
  rewrite <- fmap_cons in Hin, Hle. split.
  - apply list_elem_of_fmap in Hin as (e & -> & He). eauto.
  - intros e He. apply Hle, list_elem_of_fmap. eauto.
Qed.

Lemma date_max_spec (log : list event) :
  match date_max log with
  | None => log = []
  | Some m => (∃ e, e ∈ log ∧ date e = m) ∧ ∀ e, e ∈ log → date e ≤ m
  end.
Proof.
  unfold date_max. destruct log as [|e0 log]; [done|].
  rewrite fmap_cons.
  destruct (foldr_max_spec (date e0) (date <$> log)) as [Hin Hle].
  rewrite <- fmap_cons in Hin, Hle. split.
  - apply list_elem_of_fmap in Hin as (e & -> & He). eauto.
  - intros e He. apply Hle, list_elem_of_fmap. eauto.
Qed.

(** ** Temporal segmenter *)

Module SegmenterFacts.
Import Segmenter.

Lemma period_edges_unfold (min_d max_d : Z) :
  let L := period_len min_d max_d in
  period_edges min_d max_d =
    [min_d + 0 * L; min_d + 1 * L; min_d + 2 * L; min_d + 3 * L;
     min_d + 4 * L; min_d + 5 * L; min_d + 6 * L].
Proof. reflexivity. Qed.

Lemma period_len_pos (min_d max_d : Z) :
  5 ≤ max_d - min_d → 1 ≤ period_len min_d max_d.
Proof.
  intros H. unfold period_len.
  apply (Z.div_le_lower_bound _ 6 1); lia.
Qed.

(** With at least six days on the timeline the seven edges are valid bins,
    and [cut] labels every date by the position [searchsorted_left] finds. *)
Lemma cut_period_edges (x : list Z) (min_d max_d : Z) :
  5 ≤ max_d - min_d →
  cut x (period_edges min_d max_d) period_lbls =
    Ok ((λ d,
          let ids := searchsorted_left (period_edges min_d max_d) d in
          if bool_decide (ids = O) || bool_decide (ids = 7%nat) then NaN
          else from_option Str NaN (period_lbls !! (ids - 1)%nat)) <$> x).
Proof.
  intros H%period_len_pos. unfold cut.
  rewrite period_edges_unfold. cbv zeta.
  set (L := period_len min_d max_d) in *.
  assert (is_monotonic_increasing
            [min_d + 0 * L; min_d + 1 * L; min_d + 2 * L; min_d + 3 * L;
             min_d + 4 * L; min_d + 5 * L; min_d + 6 * L] = true) as ->.
  { simpl. rewrite !bool_decide_eq_true_2 by lia. done. }
  rewrite remove_dups_NoDup.
  2:{ repeat (apply NoDup_cons; split;
              [rewrite ?elem_of_cons, elem_of_nil; lia|]).
      apply NoDup_nil_2. }
  reflexivity.
Qed.

Lemma searchsorted_bucket (min_d max_d d : Z) (k : nat) :
  let L := period_len min_d max_d in
  1 ≤ L → (k < 6)%nat →
  min_d + Z.of_nat k * L < d ≤ min_d + (Z.of_nat k + 1) * L →
  searchsorted_left (period_edges min_d max_d) d = S k.
Proof.
  intros L HL Hk Hd. rewrite period_edges_unfold. fold L.
  do 6 (destruct k as [|k]; [cbn [searchsorted_left];
    rewrite ?(bool_decide_eq_false_2 (d ≤ _)) by lia;
    rewrite bool_decide_eq_true_2 by lia; done|]).
  lia.
Qed.

Lemma searchsorted_above (min_d max_d d : Z) :
  let L := period_len min_d max_d in
  1 ≤ L → min_d + 6 * L < d →
  searchsorted_left (period_edges min_d max_d) d = 7%nat.
Proof.
  intros L HL Hd. rewrite period_edges_unfold. fold L.
  cbn [searchsorted_left].
  rewrite !(bool_decide_eq_false_2 (d ≤ _)) by lia. done.
Qed.

Lemma searchsorted_below (min_d max_d d : Z) :
  d ≤ min_d → searchsorted_left (period_edges min_d max_d) d = O.
Proof.
  intros Hd. rewrite period_edges_unfold. cbn [searchsorted_left].
  by rewrite bool_decide_eq_true_2 by lia.
Qed.

(** The first bucket is open on the left: the events of the first day of
    the timeline fall outside the bins. *)
Lemma period_of_min_date (log : list event) (min_d max_d : Z) (i : nat)
    (e : event) :
  date_min log = Some min_d → date_max log = Some max_d →
  5 ≤ max_d - min_d →
  log !! i = Some e → date e = min_d →
  ∃ periods, period log = Ok periods ∧ periods !! i = Some NaN.
Proof.
  intros Hmin Hmax Hspan Hi Hd. unfold period. rewrite Hmin, Hmax.
  rewrite cut_period_edges by done. eexists. split; [done|].
  rewrite !list_lookup_fmap, Hi. cbn [fmap option_fmap option_map].
  rewrite searchsorted_below by lia. done.
Qed.

(** On a timeline shorter than six days the bucket width is zero, the
    seven edges coincide and [cut] rejects them. *)
Lemma period_of_short_timeline (log : list event) (min_d max_d : Z) :
  date_min log = Some min_d → date_max log = Some max_d →
  0 ≤ max_d - min_d < 5 →
  period log = Raise (ValueError "Bin edges must be unique").
Proof.
  intros Hmin Hmax Hspan. unfold period. rewrite Hmin, Hmax.
  assert (period_len min_d max_d = 0) as HL.
  { unfold period_len. apply Z.div_small. lia. }
  unfold cut. rewrite period_edges_unfold. cbv zeta. rewrite HL.
  replace (min_d + 0 * 0) with min_d by lia.
  replace (min_d + 1 * 0) with min_d by lia.
  replace (min_d + 2 * 0) with min_d by lia.
  replace (min_d + 3 * 0) with min_d by lia.
  replace (min_d + 4 * 0) with min_d by lia.
  replace (min_d + 5 * 0) with min_d by lia.
  replace (min_d + 6 * 0) with min_d by lia.
  cbn [is_monotonic_increasing].
  rewrite !bool_decide_eq_true_2 by lia. cbn [andb negb].
  cbn [remove_dups].
  repeat (destruct (decide_rel elem_of _ _) as [_|Hno];
          [|exfalso; apply Hno; left]).
  done.
Qed.

Lemma bucket_exists (min_d L d : Z) :
  1 ≤ L → min_d < d ≤ min_d + 6 * L →
  ∃ k : nat, (k < 6)%nat ∧ min_d + Z.of_nat k * L < d ≤ min_d + (Z.of_nat k + 1) * L.
Proof.
  intros HL Hd.
  destruct (decide (d ≤ min_d + 1 * L)); [exists 0%nat; lia|].
  destruct (decide (d ≤ min_d + 2 * L)); [exists 1%nat; lia|].
  destruct (decide (d ≤ min_d + 3 * L)); [exists 2%nat; lia|].
  destruct (decide (d ≤ min_d + 4 * L)); [exists 3%nat; lia|].
  destruct (decide (d ≤ min_d + 5 * L)); [exists 4%nat; lia|].
  exists 5%nat; lia.
Qed.

Lemma bucket_unique (min_d L d : Z) (k k' : nat) :
  1 ≤ L →
  min_d + Z.of_nat k * L < d ≤ min_d + (Z.of_nat k + 1) * L →
  min_d + Z.of_nat k' * L < d ≤ min_d + (Z.of_nat k' + 1) * L →
  k = k'.
Proof. intros HL Hk Hk'. nia. Qed.

End SegmenterFacts.

(** C1 (as amended): on a timeline of at least six days, every event dated
    strictly after [min_date] and no later than the last computed edge
    [min_date + 6 * period_len] gets exactly one of the six period labels,
    the one of the bucket [(edge k, edge (k+1)]] that holds its date; an
    event dated [max_date] gets the last label when [max_date] lies in the
    last bucket; an event dated after the last edge is not moved to the
    nearest bucket, it gets no label. *)
Theorem period_labels_inside_edges (log : list event) (min_d max_d : Z) :
  date_min log = Some min_d →
  date_max log = Some max_d →
  5 ≤ max_d - min_d →
  let L := Segmenter.period_len min_d max_d in
  ∃ periods,
    Segmenter.period log = Ok periods ∧
    length periods = length log ∧
    ∀ (i : nat) (e : event), log !! i = Some e →
      (min_d < date e ≤ min_d + 6 * L →
       ∃ (k : nat) (lbl : string),
         Segmenter.period_lbls !! k = Some lbl ∧
         periods !! i = Some (Str lbl) ∧
         min_d + Z.of_nat k * L < date e ≤ min_d + (Z.of_nat k + 1) * L ∧
         ∀ k' : nat, min_d + Z.of_nat k' * L < date e ≤ min_d + (Z.of_nat k' + 1) * L → k' = k) ∧
      (date e = max_d → 5 * L < max_d - min_d ≤ 6 * L →
       periods !! i = Some (Str "End")) ∧
      (min_d + 6 * L < date e → periods !! i = Some NaN).
Proof.
  intros Hmin Hmax Hspan L.
  pose proof (SegmenterFacts.period_len_pos _ _ Hspan) as HL. fold L in HL.
  unfold Segmenter.period. rewrite Hmin, Hmax.
  rewrite SegmenterFacts.cut_period_edges by done.
  eexists. split; [done|]. split; [by rewrite !length_fmap|].
  intros i e Hi.
  rewrite !list_lookup_fmap, Hi. cbn [fmap option_fmap option_map].
  split; [|split].
  - intros Hd.
    destruct (SegmenterFacts.bucket_exists min_d L (date e) HL Hd)
      as (k & Hk & Hin).
    rewrite (SegmenterFacts.searchsorted_bucket _ _ _ k) by done.
    cbv zeta. rewrite bool_decide_eq_false_2 by lia.
    rewrite bool_decide_eq_false_2 by lia.
    replace (S k - 1)%nat with k by lia.
    destruct (lookup_lt_is_Some_2 Segmenter.period_lbls k) as [lbl Hlbl];
      [simpl; lia|].
    exists k, lbl. rewrite Hlbl. repeat split; try done; try lia.
    intros k' Hk'. by apply (SegmenterFacts.bucket_unique min_d L (date e)).
  - intros -> Hlast.
    rewrite (SegmenterFacts.searchsorted_bucket _ _ _ 5) by (fold L; lia).
    done.
  - intros Hd. rewrite SegmenterFacts.searchsorted_above by done. done.
Qed.

Lemma period_labels_inside_edges_witness :
  ∃ periods,
    Segmenter.period rounding_log = Ok periods ∧
    length periods = length rounding_log ∧
    ∀ (i : nat) (e : event), rounding_log !! i = Some e →
      (0 < date e ≤ 0 + 6 * 1 →
       ∃ (k : nat) (lbl : string),
         Segmenter.period_lbls !! k = Some lbl ∧
         periods !! i = Some (Str lbl) ∧
         0 + Z.of_nat k * 1 < date e ≤ 0 + (Z.of_nat k + 1) * 1 ∧
         ∀ k' : nat, 0 + Z.of_nat k' * 1 < date e ≤ 0 + (Z.of_nat k' + 1) * 1 → k' = k) ∧
      (date e = 7 → 5 * 1 < 7 - 0 ≤ 6 * 1 →
       periods !! i = Some (Str "End")) ∧
      (0 + 6 * 1 < date e → periods !! i = Some NaN).
Proof.
  apply (period_labels_inside_edges rounding_log 0 7);
    [reflexivity | reflexivity | lia].
Defined.

(** C1 (counterexample): on an eight-day timeline the bucket width rounds
    down to one day, the last edge is day 6, and the event dated
    [max_date] (day 7) gets no period label at all. *)
Lemma period_drops_max_date :
  date_max rounding_log = Some 7 ∧
  Segmenter.period rounding_log = Ok [NaN; Str "Early Mid"; NaN].
Proof. split; reflexivity. Qed.

(** ** Grouping and frames *)

Section groupby_facts.
Context {K : Type} `{Countable K} (key : event → K).

(** A group holds exactly the events of its key, in log order, and only
    keys with at least one event have a group. *)
Lemma groupby_lookup (log : list event) (k : K) :
  groupby key log !! k =
    match filter (λ e, key e = k) log with
    | [] => None
    | g => Some g
    end.
Proof.
  induction log as [|e log IH]; [done|].
  cbn [groupby foldr]. fold (groupby key log).
  destruct (decide (key e = k)) as [Hk|Hk].
  - rewrite filter_cons_True by done. subst k.
    rewrite lookup_insert_eq, IH.
    by destruct (filter _ log).
  - rewrite filter_cons_False by done.
    by rewrite lookup_insert_ne.
Qed.

Lemma groupby_lookup_Some (log : list event) (k : K) (g : list event) :
  groupby key log !! k = Some g ↔ g = filter (λ e, key e = k) log ∧ g ≠ [].
Proof.
  rewrite groupby_lookup. destruct (filter _ log) as [|e g'].
  - split; [done|]. by intros [-> ?].
  - split; [by intros [= <-]|by intros [-> _]].
Qed.

Lemma elem_of_dom_groupby (log : list event) (k : K) :
  k ∈ dom (groupby key log) ↔ ∃ e, e ∈ log ∧ key e = k.
Proof.
  rewrite elem_of_dom, groupby_lookup. split.
  - destruct (filter _ log) as [|e g] eqn:E; [by intros []|]. intros _.
    assert (e ∈ filter (λ e, key e = k) log) as He by (rewrite E; left).
    apply list_elem_of_filter in He as [Hk He']. eauto.
  - intros (e & He & Hk).
    assert (e ∈ filter (λ e, key e = k) log) as Hin
      by (by apply list_elem_of_filter).
    destruct (filter _ log); [by apply elem_of_nil in Hin|done].
Qed.

Lemma group_size_lookup (log : list event) (k : K) :
  group_size (groupby key log) !! k =
    match filter (λ e, key e = k) log with
    | [] => None
    | g => Some (Int (Z.of_nat (length g)))
    end.
Proof.
  unfold group_size. rewrite lookup_fmap, groupby_lookup.
  by destruct (filter _ log).
Qed.

End groupby_facts.

Module ABTFacts.
Import ABT.

Lemma elem_of_students (log : list event) (s : Z) :
  s ∈ students log ↔ ∃ e, e ∈ log ∧ student_id e = s.
Proof. apply elem_of_dom_groupby. Qed.

Lemma students_events_of (log : list event) (s : Z) :
  s ∈ students log ↔ events_of s log ≠ [].
Proof.
  rewrite elem_of_students. unfold events_of. split.
  - intros (e & He & Hs) Hnil.
    assert (e ∈ filter (λ e, student_id e = s) log) as Hin
      by (by apply list_elem_of_filter).
    rewrite Hnil in Hin. by apply elem_of_nil in Hin.
  - destruct (filter _ log) as [|e g] eqn:E; [done|]. intros _.
    assert (e ∈ filter (λ e, student_id e = s) log) as He by (rewrite E; left).
    apply list_elem_of_filter in He as [? ?]. eauto.
Qed.

(** A count series after the outer join and the zero fill: the number of
    events of the student, zero included. *)
Lemma count_cell_filled (log : list event) (s : Z) :
  match default NaN (group_size (groupby student_id log) !! s) with
  | NaN => Int 0
  | x => x
  end = Int (Z.of_nat (length (events_of s log))).
Proof.
  rewrite group_size_lookup. fold (events_of s log).
  by destruct (events_of s log).
Qed.

Lemma features_index (log : list event) :
  index (features log) = students log.
Proof.
  unfold features, students. cbn.
  unfold total_acts, active_days, activity_consist, first_half, second_half,
    group_size, nunique_date.
  rewrite !dom_fmap_L. apply set_eq. intros s.
  rewrite !elem_of_union, !elem_of_dom_groupby, elem_of_empty.
  split; [|by left].
  intros [?|[?|[?|[(e & [_ He]%list_elem_of_filter & Hs)
                   |[(e & [_ He]%list_elem_of_filter & Hs)|[]]]]]]; eauto.
Qed.

Lemma features_columns (log : list event) :
  columns (features log) = aggregate_names.
Proof. reflexivity. Qed.

Lemma features_total (log : list event) (s : Z) :
  loc (features log) s "total_activities" =
    Int (Z.of_nat (length (events_of s log))).
Proof. cbn. apply count_cell_filled. Qed.

Lemma features_first_half (log : list event) (s : Z) :
  loc (features log) s "first_half_activities" =
    Int (Z.of_nat (length (events_of s (filter (le_midpoint (midpoint log)) log)))).
Proof. cbn. apply count_cell_filled. Qed.

Lemma features_second_half (log : list event) (s : Z) :
  loc (features log) s "second_half_activities" =
    Int (Z.of_nat (length (events_of s (filter (gt_midpoint (midpoint log)) log)))).
Proof. cbn. apply count_cell_filled. Qed.

Lemma features_active_days (log : list event) (s : Z) :
  s ∈ students log →
  loc (features log) s "active_days" =
    Int (Z.of_nat (length (remove_dups (date <$> events_of s log)))).
Proof.
  intros Hs%students_events_of. cbn.
  unfold active_days, nunique_date. rewrite lookup_fmap, groupby_lookup.
  fold (events_of s log). by destruct (events_of s log).
Qed.

Lemma features_consistency (log : list event) (s : Z) :
  s ∈ students log →
  loc (features log) s "activity_consistency" =
    match stdev_gap (events_of s log) with NaN => Int 0 | x => x end.
Proof.
  intros Hs%students_events_of. cbn.
  unfold activity_consist. rewrite lookup_fmap, groupby_lookup.
  fold (events_of s log). by destruct (events_of s log).
Qed.

(** In exact arithmetic, a date is on or before the midpoint
    [min_d + (max_d - min_d)/2] when twice the date is at most
    [min_d + max_d]. *)
Lemma le_midpoint_iff (log : list event) (min_d max_d : Z) (e : event) :
  date_min log = Some min_d → date_max log = Some max_d →
  le_midpoint (midpoint log) e ↔ 2 * date e ≤ min_d + max_d.
Proof.
  intros Hmin Hmax. unfold midpoint. rewrite Hmin, Hmax.
  cbn. unfold Qle. cbn. lia.
Qed.

Lemma gt_midpoint_iff (log : list event) (min_d max_d : Z) (e : event) :
  date_min log = Some min_d → date_max log = Some max_d →
  gt_midpoint (midpoint log) e ↔ ¬ 2 * date e ≤ min_d + max_d.
Proof.
  intros Hmin Hmax. unfold midpoint. rewrite Hmin, Hmax.
  cbn. unfold Qlt. cbn. lia.
Qed.

Lemma length_filter_split {A : Type} (P : A → Prop) `{!∀ x, Decision (P x)}
    (Q : A → Prop) `{!∀ x, Decision (Q x)} (l : list A) :
  (length (filter (λ x, Q x ∧ P x) l) + length (filter (λ x, Q x ∧ ¬ P x) l)
   = length (filter Q l))%nat.
Proof.
  induction l as [|x l IH]; [done|].
  rewrite !filter_cons.
  destruct (decide (Q x)), (decide (P x));
    repeat (case_decide; try tauto); simpl; lia.
Qed.

Lemma students_log_dates (log : list event) (s : Z) :
  s ∈ students log →
  ∃ min_d max_d, date_min log = Some min_d ∧ date_max log = Some max_d.
Proof.
  intros (e & He & _)%elem_of_students.
  pose proof (date_min_spec log) as Hmin.
  pose proof (date_max_spec log) as Hmax.
  destruct (date_min log), (date_max log); subst; eauto;
    by apply elem_of_nil in He.
Qed.

End ABTFacts.

(** ** Feature aggregator *)

(** C6: for every student of the Event Store, [first_half_activities]
    counts the student's events dated on or before the midpoint,
    [second_half_activities] those dated after it, and the two add up to
    [total_activities]. *)
Theorem half_split_complete (log : list event) (s : Z) :
  s ∈ students log →
  ∃ min_d max_d : Z,
    date_min log = Some min_d ∧ date_max log = Some max_d ∧
    let on_or_before (e : event) := 2 * date e ≤ min_d + max_d in
    let first :=
      Z.of_nat (length (filter (λ e, student_id e = s ∧ on_or_before e) log)) in
    let second :=
      Z.of_nat (length (filter (λ e, student_id e = s ∧ ¬ on_or_before e) log)) in
    let total := Z.of_nat (length (filter (λ e, student_id e = s) log)) in
    loc (ABT.features log) s "first_half_activities" = Int first ∧
    loc (ABT.features log) s "second_half_activities" = Int second ∧
    loc (ABT.features log) s "total_activities" = Int total ∧
    first + second = total.
Proof.
  intros Hs.
  destruct (ABTFacts.students_log_dates log s Hs) as (min_d & max_d & Hmin & Hmax).
  exists min_d, max_d. split; [done|]. split; [done|]. cbv zeta.
  rewrite ABTFacts.features_first_half, ABTFacts.features_second_half,
    ABTFacts.features_total.
  unfold events_of. rewrite !list_filter_filter.
  rewrite (list_filter_iff _ (λ e, student_id e = s ∧ 2 * date e ≤ min_d + max_d))
    by (intros e; by rewrite (ABTFacts.le_midpoint_iff log min_d max_d)).
  rewrite (list_filter_iff (λ e, _ ∧ ABT.gt_midpoint _ e)
             (λ e, student_id e = s ∧ ¬ 2 * date e ≤ min_d + max_d))
    by (intros e; by rewrite (ABTFacts.gt_midpoint_iff log min_d max_d)).
  repeat split; try done.
  rewrite <- Nat2Z.inj_add. f_equal.
  apply (ABTFacts.length_filter_split (λ e, 2 * date e ≤ min_d + max_d)
           (λ e, student_id e = s)).
Qed.

Lemma half_split_complete_witness :
  ∃ min_d max_d : Z,
    date_min sample_log = Some min_d ∧ date_max sample_log = Some max_d ∧
    let on_or_before (e : event) := 2 * date e ≤ min_d + max_d in
    let first :=
      Z.of_nat (length (filter (λ e, student_id e = 3 ∧ on_or_before e) sample_log)) in
    let second :=
      Z.of_nat (length (filter (λ e, student_id e = 3 ∧ ¬ on_or_before e) sample_log)) in
    let total := Z.of_nat (length (filter (λ e, student_id e = 3) sample_log)) in
    loc (ABT.features sample_log) 3 "first_half_activities" = Int first ∧
    loc (ABT.features sample_log) 3 "second_half_activities" = Int second ∧
    loc (ABT.features sample_log) 3 "total_activities" = Int total ∧
    first + second = total.
Proof.
  apply (half_split_complete sample_log 3). vm_compute. reflexivity.
Defined.

(** ** The consistency metric *)

Module ConsistencyFacts.
Import ABT.

#[local] Instance date_le_total : Total date_le.
Proof. intros e1 e2. unfold date_le. lia. Qed.

#[local] Instance Z_le_total : Total Z.le.
Proof. intros x y. lia. Qed.

Lemma length_sort_values_date (df : list event) :
  length (sort_values_date df) = length df.
Proof. apply Permutation_length, merge_sort_Permutation. Qed.

(** Sorting the rows by date and reading the date column gives the sorted
    dates. *)
Lemma sort_values_date_dates (df : list event) :
  date <$> sort_values_date df = merge_sort Z.le (date <$> df).
Proof.
  apply (Sorted_unique Z.le).
  - apply Sorted_fmap with (R1 := date_le); [done|].
    apply Sorted_merge_sort, _.
  - apply Sorted_merge_sort, _.
  - rewrite merge_sort_Permutation.
    unfold sort_values_date. by rewrite merge_sort_Permutation.
Qed.

Lemma dropna_diff_from (prev : Z) (xs : list Z) :
  dropna (diff_from prev xs) = day_gaps (prev :: xs).
Proof.
  revert prev. induction xs as [|x xs IH]; intros prev; [done|].
  cbn [diff_from dropna omap]. unfold dropna in IH. cbn. rewrite IH. done.
Qed.

(** [diff], [dt.days] and [dropna] together compute the day-gaps. *)
Lemma dropna_diff (xs : list Z) : dropna (diff xs) = day_gaps xs.
Proof.
  destruct xs as [|x xs]; [done|].
  cbn [diff dropna omap]. apply dropna_diff_from.
Qed.

Lemma length_day_gaps (xs : list Z) :
  length (day_gaps xs) = (length xs - 1)%nat.
Proof.
  unfold day_gaps. rewrite length_zip_with.
  destruct xs as [|x xs]; [done|]. cbn [tail length]. lia.
Qed.

(** pandas' [std] with [ddof = 1] is the sample standard deviation, with
    [NaN] where the latter is undefined. *)
Lemma std_sample_std (xs : list Z) :
  std 1 xs = from_option Real NaN (sample_std xs).
Proof.
  unfold std, sample_std. cbv zeta.
  destruct (decide (length xs ≤ 1)%nat) as [Hn|Hn].
  - rewrite bool_decide_eq_true_2, bool_decide_eq_false_2 by lia. done.
  - rewrite bool_decide_eq_false_2, bool_decide_eq_true_2 by lia.
    cbn [from_option]. do 3 f_equal.
    generalize (Rsum (IZR <$> xs) / INR (length xs))%R as m. intros m.
    f_equal. apply list_fmap_ext. intros _ x _. apply Rsqr_neg_minus.
Qed.

Lemma stdev_gap_spec (df : list event) :
  stdev_gap df =
    if bool_decide (length df < 2)%nat then Int 0
    else from_option Real NaN
           (sample_std (day_gaps (merge_sort Z.le (date <$> df)))).
Proof.
  unfold stdev_gap. case_bool_decide as Hlen; [done|].
  rewrite dropna_diff, sort_values_date_dates.
  rewrite bool_decide_eq_false_2; [apply std_sample_std|].
  intros Hnil. apply (f_equal length) in Hnil.
  rewrite length_day_gaps in Hnil.
  rewrite (Permutation_length (merge_sort_Permutation Z.le _)) in Hnil.
  rewrite length_fmap in Hnil. simpl in Hnil. lia.
Qed.

Lemma length_sorted_day_gaps (s : Z) (log : list event) :
  length (sorted_day_gaps s log) = (length (events_of s log) - 1)%nat.
Proof.
  unfold sorted_day_gaps. rewrite length_day_gaps.
  rewrite (Permutation_length (merge_sort_Permutation Z.le _)).
  by rewrite length_fmap.
Qed.

(** The [activity_consistency] cell of a student, in the vocabulary of the
    specification. *)
Lemma consistency_cell (log : list event) (s : Z) :
  s ∈ students log →
  loc (features log) s "activity_consistency" =
    if bool_decide (length (events_of s log) < 2)%nat then Int 0
    else from_option Real (Int 0) (sample_std (sorted_day_gaps s log)).
Proof.
  intros Hs. rewrite ABTFacts.features_consistency by done.
  rewrite stdev_gap_spec. fold (sorted_day_gaps s log).
  case_bool_decide; [done|].
  by destruct (sample_std (sorted_day_gaps s log)).
Qed.

End ConsistencyFacts.

(** C7: a student with fewer than two events (that is, exactly one) has
    [activity_consistency] equal to 0.  [stdev_gap] returns the number 0
    itself on such a group, and the feature table, which is built without
    any step that can raise, holds 0. *)
Theorem consistency_zero_below_two_events (log : list event) (s : Z) :
  s ∈ students log →
  (length (events_of s log) < 2)%nat →
  ABT.stdev_gap (events_of s log) = Int 0 ∧
  loc (ABT.features log) s "activity_consistency" = Int 0.
Proof.
  intros Hs Hlen. split.
  - unfold ABT.stdev_gap. by rewrite bool_decide_eq_true_2.
  - rewrite ConsistencyFacts.consistency_cell by done.
    by rewrite bool_decide_eq_true_2.
Qed.

Lemma consistency_zero_below_two_events_witness :
  ABT.stdev_gap (events_of 2 sample_log) = Int 0 ∧
  loc (ABT.features sample_log) 2 "activity_consistency" = Int 0.
Proof.
  apply (consistency_zero_below_two_events sample_log 2).
  - vm_compute. reflexivity.
  - vm_compute. lia.
Defined.



(** C8 (as amended): for every student with at least three events,
    [activity_consistency] is the sample standard deviation (divisor
    [n - 1]) of the day-gaps between the student's consecutive sorted
    event dates; with exactly two events there is a single gap, the sample
    standard deviation is undefined, and the table holds 0. *)
Theorem consistency_is_sample_std (log : list event) (s : Z) :
  s ∈ students log →
  (2 ≤ length (events_of s log))%nat →
  loc (ABT.features log) s "activity_consistency" =
    from_option Real (Int 0) (sample_std (sorted_day_gaps s log)) ∧
  ((3 ≤ length (events_of s log))%nat →
   ∃ sd : R,
     sample_std (sorted_day_gaps s log) = Some sd ∧
     loc (ABT.features log) s "activity_consistency" = Real sd) ∧
  (length (events_of s log) = 2%nat →
   sample_std (sorted_day_gaps s log) = None ∧
   loc (ABT.features log) s "activity_consistency" = Int 0).
Proof.
  intros Hs Hlen.
  pose proof (ConsistencyFacts.length_sorted_day_gaps s log) as Hgaps.
  rewrite ConsistencyFacts.consistency_cell by done.
  rewrite bool_decide_eq_false_2 by lia.
  split; [done|]. unfold sample_std. cbv zeta. split.
  - intros Hthree. rewrite bool_decide_eq_true_2 by lia. eauto.
  - intros Htwo. rewrite bool_decide_eq_false_2 by lia. done.
Qed.

Lemma consistency_is_sample_std_witness :
  loc (ABT.features sample_log) 3 "activity_consistency" =
    from_option Real (Int 0) (sample_std (sorted_day_gaps 3 sample_log)) ∧
  ((3 ≤ length (events_of 3 sample_log))%nat →
   ∃ sd : R,
     sample_std (sorted_day_gaps 3 sample_log) = Some sd ∧
     loc (ABT.features sample_log) 3 "activity_consistency" = Real sd) ∧
  (length (events_of 3 sample_log) = 2%nat →
   sample_std (sorted_day_gaps 3 sample_log) = None ∧
   loc (ABT.features sample_log) 3 "activity_consistency" = Int 0).
Proof.
  apply (consistency_is_sample_std sample_log 3).
  - vm_compute. reflexivity.
  - vm_compute. lia.
Defined.

(** C8 (counterexample): student 1 has two events, on days 0 and 3.  The
    only gap is 3 days, no sample standard deviation exists for it, and
    the feature table holds 0. *)
Lemma consistency_of_two_events_is_not_std :
  length (events_of 1 sample_log) = 2%nat ∧
  sorted_day_gaps 1 sample_log = [3] ∧
  sample_std (sorted_day_gaps 1 sample_log) = None ∧
  loc (ABT.features sample_log) 1 "activity_consistency" = Int 0.
Proof. repeat split; vm_compute; reflexivity. Qed.

(** ** ABT assembler *)

Module AssemblerFacts.
Import ABT.

Lemma join_Ok (left right : DataFrame) :
  Forall (λ c, c ∉ columns left) (columns right) →
  join left right =
    Ok {| index := index left;
          columns := (columns left ++ columns right)%list;
          loc s c :=
            if bool_decide (c ∈ columns left) then loc left s c
            else if bool_decide (s ∈ index right) then loc right s c
            else NaN |}.
Proof. intros Hfresh. unfold join. by rewrite bool_decide_eq_true_2. Qed.

Lemma pivot_index (log : list event) :
  index (activity_pivot log) = students log.
Proof.
  unfold activity_pivot, unstack, group_size, students. cbn.
  rewrite dom_fmap_L. apply set_eq. intros s.
  rewrite elem_of_map, elem_of_dom_groupby. split.
  - intros ([s' a] & -> & Hin). apply elem_of_dom_groupby in Hin.
    destruct Hin as (e & He & [= Hs Ha]). eauto.
  - intros (e & He & Hs). exists (s, activity e). split; [done|].
    apply elem_of_dom_groupby. exists e. by rewrite Hs.
Qed.

Lemma pivot_columns (log : list event) (c : string) :
  c ∈ columns (activity_pivot log) ↔ ∃ e, e ∈ log ∧ activity e = c.
Proof.
  unfold activity_pivot, unstack, group_size. cbn.
  rewrite elem_of_elements, elem_of_map, dom_fmap_L. split.
  - intros ([s a] & -> & Hin). apply elem_of_dom_groupby in Hin.
    destruct Hin as (e & He & [= Hs Ha]). eauto.
  - intros (e & He & Hc). exists (student_id e, c). split; [done|].
    apply elem_of_dom_groupby. exists e. by rewrite Hc.
Qed.

(** A cell of the pivot is the count of the student's events of that
    activity; [fill_value=0] covers the combinations without events. *)
Lemma pivot_loc (log : list event) (s : Z) (a : string) :
  loc (activity_pivot log) s a = Int (activity_count s a log).
Proof.
  unfold activity_pivot, unstack, activity_count. cbn.
  rewrite group_size_lookup.
  rewrite (list_filter_iff _ (λ e, student_id e = s ∧ activity e = a))
    by (intros e; split; [by intros [= -> ->]|by intros [-> ->]]).
  by destruct (filter _ log).
Qed.

Lemma fresh_pivot_columns (log : list event) :
  fresh_activities log →
  Forall (λ c, c ∉ reserved_names) (columns (activity_pivot log)).
Proof.
  intros Hfresh. apply Forall_forall. intros c (e & He & <-)%pivot_columns.
  by apply (proj1 (Forall_forall _ _) Hfresh).
Qed.

(** The table of cell 2 when the log has events and no activity carries a
    reserved name. *)
Lemma abt_Ok (log : list event) (vle_grades : gmap Z string) :
  log ≠ [] →
  fresh_activities log →
  ∃ table,
    abt log vle_grades = Ok table ∧
    index table = students log ∧
    columns table =
      (aggregate_names ++ columns (activity_pivot log) ++ ["final_grade"])%list ∧
    (∀ s c, c ∈ aggregate_names → loc table s c = loc (features log) s c) ∧
    (∀ s a, s ∈ students log → a ∈ columns (activity_pivot log) →
            loc table s a = Int (activity_count s a log)) ∧
    (∀ s, loc table s "final_grade" = from_option Str NaN (vle_grades !! s)).
Proof.
  intros Hlog Hfresh%fresh_pivot_columns. unfold abt.
  rewrite bool_decide_eq_false_2 by done.
  rewrite join_Ok.
  2:{ eapply Forall_impl; [exact Hfresh|]. intros c Hc Hin. apply Hc.
      right. exact Hin. }
  cbn [mbind outcome_bind]. rewrite join_Ok.
  2:{ apply Forall_singleton. cbn [columns fillna]. rewrite elem_of_app.
      intros [Hin|Hin].
      - by vm_compute in Hin; repeat (apply elem_of_cons in Hin as [?|Hin]);
          try apply elem_of_nil in Hin.
      - apply (proj1 (Forall_forall _ _) Hfresh) in Hin. apply Hin. left. }
  eexists. split; [done|]. cbn [index columns loc fillna grades_frame].
  split; [apply ABTFacts.features_index|]. split; [by rewrite <- app_assoc|].
  split; [|split].
  - intros s c Hc.
    rewrite (bool_decide_eq_true_2 (c ∈ (_ ++ _)%list)) by (apply elem_of_app; by left).
    rewrite (bool_decide_eq_true_2 (c ∈ columns (features log))) by done.
    unfold features. cbn [loc fillna]. by destruct (loc (concat _) s c).
  - intros s a Hs Ha.
    assert (a ∉ aggregate_names) as Hna.
    { intros Hin. apply (proj1 (Forall_forall _ _) Hfresh) in Ha. apply Ha.
      by right. }
    rewrite (bool_decide_eq_true_2 (a ∈ (_ ++ _)%list)) by (apply elem_of_app; by right).
    rewrite (bool_decide_eq_false_2 (a ∈ columns (features log))) by done.
    rewrite bool_decide_eq_true_2 by (by rewrite pivot_index).
    by rewrite pivot_loc.
  - intros s.
    rewrite bool_decide_eq_false_2.
    2:{ rewrite elem_of_app. intros [Hin|Hin].
        - by vm_compute in Hin; repeat (apply elem_of_cons in Hin as [?|Hin]);
            try apply elem_of_nil in Hin.
        - apply (proj1 (Forall_forall _ _) Hfresh) in Hin. apply Hin. left. }
    case_bool_decide as Hdom; [done|].
    apply not_elem_of_dom in Hdom. by rewrite Hdom.
Qed.

(** An activity that carries a reserved name makes one of the two joins
    fail, so the condition above is also necessary. *)
Lemma abt_Raise (log : list event) (vle_grades : gmap Z string) :
  ¬ fresh_activities log →
  abt log vle_grades = Raise (ValueError "columns overlap but no suffix specified").
Proof.
  intros Hno. apply not_Forall_Exists in Hno; [|apply _].
  apply Exists_exists in Hno as (e & He & Hres). cbn in Hres.
  apply dec_stable in Hres.
  assert (activity e ∈ columns (activity_pivot log)) as Hcol
    by (apply pivot_columns; eauto).
  unfold abt. rewrite bool_decide_eq_false_2 by (by intros ->; inversion He).
  unfold join at 2.
  case_bool_decide as Hfirst; [|done]. cbn [mbind outcome_bind].
  unfold join. rewrite bool_decide_eq_false_2; [done|].
  cbn [columns grades_frame]. intros Hfinal%Forall_inv. apply Hfinal.
  cbn [columns fillna]. apply elem_of_app. right.
  apply elem_of_cons in Hres as [<-|Hagg]; [done|].
  exfalso. by apply (proj1 (Forall_forall _ _) Hfirst (activity e)).
Qed.

End AssemblerFacts.

Module GradeFacts.
Import ABT.

Lemma GRADE_MAP_lookup (g : string) :
  GRADE_MAP !! g =
    if decide (g = "fail") then Some 1
    else if decide (g = "pass") then Some 2
    else if decide (g = "merit") then Some 3
    else if decide (g = "distinction") then Some 4
    else None.
Proof.
  unfold GRADE_MAP.
  repeat (case_decide; [subst; by simplify_map_eq|]).
  by simplify_map_eq.
Qed.

Lemma GRADE_INV_lookup (n : Z) :
  GRADE_INV !! n =
    if decide (n = 1) then Some "fail"
    else if decide (n = 2) then Some "pass"
    else if decide (n = 3) then Some "merit"
    else if decide (n = 4) then Some "distinction"
    else None.
Proof.
  unfold GRADE_INV.
  repeat (case_decide; [subst; by simplify_map_eq|]).
  by simplify_map_eq.
Qed.

(** [GRADE_INV] is the inverse of [GRADE_MAP]. *)
Lemma GRADE_INV_inverse (g : string) (n : Z) :
  GRADE_MAP !! g = Some n ↔ GRADE_INV !! n = Some g.
Proof.
  rewrite GRADE_MAP_lookup, GRADE_INV_lookup.
  repeat case_decide; subst; split; intros [=]; subst; done.
Qed.

Lemma GRADE_MAP_recognized (g : string) :
  g ∈ recognized_grades ↔ ∃ n, GRADE_MAP !! g = Some n ∧ 1 ≤ n ≤ 4.
Proof.
  rewrite GRADE_MAP_lookup. unfold recognized_grades.
  rewrite !elem_of_cons, elem_of_nil. split.
  - intros [->|[->|[->|[->|[]]]]]; simpl; eexists; (split; [done|lia]).
  - intros (n & Hn & _). repeat case_decide; subst; try done; tauto.
Qed.

Lemma GRADE_MAP_unrecognized (g : string) :
  g ∉ recognized_grades ↔ GRADE_MAP !! g = None.
Proof.
  rewrite GRADE_MAP_recognized. split.
  - intros Hno. destruct (GRADE_MAP !! g) as [n|] eqn:E; [|done].
    exfalso. apply Hno. exists n. split; [done|].
    rewrite GRADE_MAP_lookup in E.
    repeat case_decide; simplify_eq; lia.
  - intros -> (n & [=] & _).
Qed.

(** The table with its numeric grade column, when the log has events and
    no activity carries a reserved name: adding the column never makes the
    assembly fail. *)
Lemma assemble_Ok (log : list event) (vle_grades : gmap Z string) :
  log ≠ [] →
  fresh_activities log →
  ∃ table,
    assemble log vle_grades = Ok table ∧
    index table = students log ∧
    ∀ s, loc table s "final_grade" = from_option Str NaN (vle_grades !! s) ∧
         loc table s "grade_numeric" =
           from_option Int NaN (vle_grades !! s ≫= (GRADE_MAP !!.)).
Proof.
  intros Hlog Hfresh.
  destruct (AssemblerFacts.abt_Ok log vle_grades Hlog Hfresh)
    as (table0 & Habt & Hindex & _ & _ & _ & Hgrade).
  unfold assemble. rewrite Habt. cbn [mbind outcome_bind].
  eexists. split; [done|]. split; [done|]. intros s.
  unfold add_grade_numeric. cbn [loc setitem].
  rewrite (bool_decide_eq_false_2 ("final_grade" = "grade_numeric")) by done.
  rewrite bool_decide_eq_true_2 by done.
  rewrite Hgrade. split; [done|].
  by destruct (vle_grades !! s).
Qed.

End GradeFacts.

(** C5: when the table of cell 2 is built (the log has events and no
    activity carries a reserved column name), its rows are the students of
    the Event Store, and for
    every such student every aggregate column and every activity-count
    column holds a number: the counts themselves, 0 where the student has
    no event behind the column. *)
Theorem zero_fill_invariant (log : list event) (vle_grades : gmap Z string) :
  log ≠ [] →
  fresh_activities log →
  ∃ table,
    ABT.abt log vle_grades = Ok table ∧
    index table = students log ∧
    (∀ c, c ∈ columns table ↔
          c ∈ ABT.aggregate_names ∨ (∃ e, e ∈ log ∧ activity e = c) ∨
          c = "final_grade") ∧
    ∀ s, s ∈ students log →
      (∀ c, c ∈ ABT.aggregate_names → is_numeric (loc table s c)) ∧
      (∀ a, (∃ e, e ∈ log ∧ activity e = a) →
            loc table s a = Int (activity_count s a log)) ∧
      loc table s "first_half_activities" =
        Int (Z.of_nat (length
          (events_of s (filter (ABT.le_midpoint (ABT.midpoint log)) log)))) ∧
      loc table s "second_half_activities" =
        Int (Z.of_nat (length
          (events_of s (filter (ABT.gt_midpoint (ABT.midpoint log)) log)))).
Proof.
  intros Hlog Hfresh.
  destruct (AssemblerFacts.abt_Ok log vle_grades Hlog Hfresh)
    as (table & Habt & Hindex & Hcols & Hagg & Hact & _).
  exists table. split; [done|]. split; [done|]. split.
  - intros c. rewrite Hcols, !elem_of_app, AssemblerFacts.pivot_columns.
    rewrite list_elem_of_singleton. tauto.
  - intros s Hs. split; [|split; [|split]].
    + intros c Hc. rewrite Hagg by done.
      unfold ABT.aggregate_names in Hc.
      repeat (apply elem_of_cons in Hc as [->|Hc]);
        [| | | | |by apply elem_of_nil in Hc].
      * by rewrite ABTFacts.features_total.
      * by rewrite ABTFacts.features_active_days.
      * rewrite ConsistencyFacts.consistency_cell by done.
        case_bool_decide; [done|].
        by destruct (sample_std (sorted_day_gaps s log)).
      * by rewrite ABTFacts.features_first_half.
      * by rewrite ABTFacts.features_second_half.
    + intros a Ha. apply Hact; [done|]. by apply AssemblerFacts.pivot_columns.
    + rewrite Hagg by (unfold ABT.aggregate_names; repeat constructor).
      apply ABTFacts.features_first_half.
    + rewrite Hagg by (unfold ABT.aggregate_names; repeat constructor).
      apply ABTFacts.features_second_half.
Qed.

Lemma zero_fill_invariant_witness :
  ∃ table,
    ABT.abt sample_log sample_grades = Ok table ∧
    index table = students sample_log ∧
    (∀ c, c ∈ columns table ↔
          c ∈ ABT.aggregate_names ∨ (∃ e, e ∈ sample_log ∧ activity e = c) ∨
          c = "final_grade") ∧
    ∀ s, s ∈ students sample_log →
      (∀ c, c ∈ ABT.aggregate_names → is_numeric (loc table s c)) ∧
      (∀ a, (∃ e, e ∈ sample_log ∧ activity e = a) →
            loc table s a = Int (activity_count s a sample_log)) ∧
      loc table s "first_half_activities" =
        Int (Z.of_nat (length
          (events_of s (filter (ABT.le_midpoint (ABT.midpoint sample_log))
                          sample_log)))) ∧
      loc table s "second_half_activities" =
        Int (Z.of_nat (length
          (events_of s (filter (ABT.gt_midpoint (ABT.midpoint sample_log))
                          sample_log)))).
Proof.
  apply (zero_fill_invariant sample_log sample_grades); [discriminate|].
  unfold fresh_activities. apply (bool_decide_unpack _). by vm_compute.
Defined.

(** C2 (as amended): the numeric grade column is added by a dictionary
    lookup that never raises.  Whenever the table of cell 2 is built, the
    assembly succeeds whatever the labels are: a recognised grade is
    encoded by its number from 1 to 4, and any other label, such as
    "honors", is kept in [final_grade] and gets the missing value [NaN]
    in [grade_numeric]. *)
Theorem grade_mapping_never_raises (log : list event)
    (vle_grades : gmap Z string) :
  log ≠ [] →
  fresh_activities log →
  ∃ table,
    ABT.assemble log vle_grades = Ok table ∧
    ∀ s g, s ∈ index table → vle_grades !! s = Some g →
      loc table s "final_grade" = Str g ∧
      loc table s "grade_numeric" = from_option Int NaN (ABT.GRADE_MAP !! g) ∧
      (g ∈ recognized_grades →
       ∃ n, 1 ≤ n ≤ 4 ∧ loc table s "grade_numeric" = Int n) ∧
      (g ∉ recognized_grades → loc table s "grade_numeric" = NaN).
Proof.
  intros Hlog Hfresh.
  destruct (GradeFacts.assemble_Ok log vle_grades Hlog Hfresh)
    as (table & Hok & _ & Hloc).
  exists table. split; [done|]. intros s g _ Hg.
  destruct (Hloc s) as [Hfinal Hnum]. rewrite Hg in Hfinal, Hnum.
  cbn in Hfinal, Hnum. rewrite Hfinal, Hnum. repeat split.
  - intros (n & Hn & Hrange)%GradeFacts.GRADE_MAP_recognized.
    exists n. by rewrite Hn.
  - intros Hno%GradeFacts.GRADE_MAP_unrecognized. by rewrite Hno.
Qed.

Lemma grade_mapping_never_raises_witness :
  ∃ table,
    ABT.assemble sample_log sample_grades = Ok table ∧
    ∀ s g, s ∈ index table → sample_grades !! s = Some g →
      loc table s "final_grade" = Str g ∧
      loc table s "grade_numeric" = from_option Int NaN (ABT.GRADE_MAP !! g) ∧
      (g ∈ recognized_grades →
       ∃ n, 1 ≤ n ≤ 4 ∧ loc table s "grade_numeric" = Int n) ∧
      (g ∉ recognized_grades → loc table s "grade_numeric" = NaN).
Proof.
  apply (grade_mapping_never_raises sample_log sample_grades); [discriminate|].
  unfold fresh_activities. apply (bool_decide_unpack _). by vm_compute.
Defined.

(** C2 (counterexample): student 2 is labelled "honors".  The assembly
    does not raise; the row is kept and its numeric grade is [NaN]. *)
Lemma honors_is_mapped_silently :
  match ABT.assemble sample_log sample_grades with
  | Ok table =>
      2 ∈ index table ∧
      loc table 2 "final_grade" = Str "honors" ∧
      loc table 2 "grade_numeric" = NaN
  | Raise _ => False
  end.
Proof. vm_compute. repeat split. Qed.

(** C9: in every assembled table, a row whose [final_grade] is one of the
    four recognised grades has a [grade_numeric] that the inverse map
    [{1: fail, 2: pass, 3: merit, 4: distinction}] sends back to that
    grade; the inverse map is the inverse of the encoding. *)
Theorem label_round_trip (log : list event) (vle_grades : gmap Z string) :
  log ≠ [] →
  fresh_activities log →
  (∀ g n, ABT.GRADE_MAP !! g = Some n ↔ GRADE_INV !! n = Some g) ∧
  ∃ table,
    ABT.assemble log vle_grades = Ok table ∧
    ∀ s g, s ∈ index table →
      loc table s "final_grade" = Str g →
      g ∈ recognized_grades →
      decode_grade (loc table s "grade_numeric") = Some g.
Proof.
  intros Hlog Hfresh. split; [apply GradeFacts.GRADE_INV_inverse|].
  destruct (GradeFacts.assemble_Ok log vle_grades Hlog Hfresh)
    as (table & Hok & _ & Hloc).
  exists table. split; [done|]. intros s g _ Hfinal Hg.
  destruct (Hloc s) as [Hfinal' Hnum]. rewrite Hfinal in Hfinal'.
  destruct (vle_grades !! s) as [g'|]; [|done].
  injection Hfinal' as ->. rewrite Hnum. cbn.
  apply GradeFacts.GRADE_MAP_recognized in Hg as (n & Hn & _).
  rewrite Hn. cbn. by apply GradeFacts.GRADE_INV_inverse.
Qed.

Lemma label_round_trip_witness :
  (∀ g n, ABT.GRADE_MAP !! g = Some n ↔ GRADE_INV !! n = Some g) ∧
  ∃ table,
    ABT.assemble sample_log sample_grades = Ok table ∧
    ∀ s g, s ∈ index table →
      loc table s "final_grade" = Str g →
      g ∈ recognized_grades →
      decode_grade (loc table s "grade_numeric") = Some g.
Proof.
  apply (label_round_trip sample_log sample_grades); [discriminate|].
  unfold fresh_activities. apply (bool_decide_unpack _). by vm_compute.
Defined.

(** ** Evaluation harness *)

Module HarnessFacts.
Import Harness.

Lemma select_nil_iff (cols : list string) (X : list (string → R)) :
  select cols X = [] ↔ X = [].
Proof. unfold select. by destruct X. Qed.

Lemma n_features_select (cols : list string) (X : list (string → R)) :
  X ≠ [] → n_features (select cols X) = length cols.
Proof.
  destruct X as [|row X]; [done|]. intros _.
  unfold n_features, select. cbn. by rewrite length_fmap.
Qed.

Lemma check_array_select (cols : list string) (X : list (string → R)) :
  X ≠ [] → cols ≠ [] → check_array (select cols X) = Ok ().
Proof.
  intros HX Hcols. unfold check_array.
  rewrite bool_decide_eq_false_2 by (by rewrite select_nil_iff).
  rewrite n_features_select by done.
  rewrite bool_decide_eq_false_2; [done|].
  by destruct cols.
Qed.

Lemma length_mean_statistics (X : list (list R)) :
  length (mean_ (statistics X)) = n_features X.
Proof. unfold statistics. cbn. by rewrite length_fmap, length_seq. Qed.

Lemma column_select (cols : list string) (X : list (string → R)) (j : nat)
    (c : string) :
  cols !! j = Some c → column j (select cols X) = (λ row, row c) <$> X.
Proof.
  intros Hj. unfold column, select. rewrite <- list_fmap_compose.
  apply list_fmap_ext. intros _ row _. cbn.
  by rewrite list_lookup_fmap, Hj.
Qed.

Lemma Rsum_sqr_nonneg (m : R) (xs : list R) :
  (0 <= Rsum ((λ x, Rsqr (x - m))%R <$> xs))%R.
Proof.
  induction xs as [|x xs IH]; [cbn; lra|].
  rewrite fmap_cons, Rsum_cons. pose proof (Rle_0_sqr (x - m)). lra.
Qed.

Lemma var_nonneg (xs : list R) : xs ≠ [] → (0 <= var xs)%R.
Proof.
  intros Hxs. unfold var, mean at 1. rewrite length_fmap.
  apply Rmult_le_pos; [apply Rsum_sqr_nonneg|].
  apply Rlt_le, Rinv_0_lt_compat, lt_0_INR. destruct xs; [done|cbn; lia].
Qed.

(** The mean and the variance the scaler computes for a column of
    [X[cols]] are those of the feature over the rows of [X]. *)
Lemma mean_column_select (cols : list string) (X : list (string → R))
    (j : nat) (c : string) :
  cols !! j = Some c →
  mean (column j (select cols X)) = column_mean c X.
Proof.
  intros Hj. rewrite (column_select cols X j c Hj).
  unfold mean, column_mean. by rewrite length_fmap.
Qed.

Lemma var_column_select (cols : list string) (X : list (string → R))
    (j : nat) (c : string) :
  cols !! j = Some c →
  var (column j (select cols X)) = column_variance c X.
Proof.
  intros Hj. unfold var. rewrite (mean_column_select cols X j c Hj).
  rewrite (column_select cols X j c Hj).
  unfold mean, column_variance. rewrite <- list_fmap_compose, !length_fmap.
  done.
Qed.

Lemma scale_column_select (cols : list string) (X : list (string → R))
    (j : nat) (c : string) :
  X ≠ [] → cols !! j = Some c →
  handle_zeros_in_scale (sqrt (var (column j (select cols X)))) =
    column_scale c X.
Proof.
  intros HX Hj.
  assert (0 <= var (column j (select cols X)))%R as Hpos.
  { apply var_nonneg. rewrite (column_select cols X j c Hj). by destruct X. }
  rewrite (var_column_select cols X j c Hj) in *.
  unfold handle_zeros_in_scale, column_scale.
  destruct (Req_dec_T (column_variance c X) 0) as [Hz|Hnz].
  - rewrite Hz, sqrt_0. by destruct (Req_dec_T 0 0).
  - destruct (Req_dec_T (sqrt (column_variance c X)) 0) as [Hsz|Hsnz]; [|done].
    exfalso. apply Hnz. by apply sqrt_eq_0.
Qed.

Lemma statistics_select (cols : list string) (X : list (string → R)) :
  X ≠ [] → statistics (select cols X) = training_statistics cols X.
Proof.
  intros HX. unfold statistics, training_statistics.
  rewrite n_features_select by done. f_equal.
  - apply list_eq. intros j. rewrite !list_lookup_fmap.
    destruct (cols !! j) as [c|] eqn:Hj.
    + rewrite lookup_seq_lt by (by eapply lookup_lt_Some). cbn.
      by rewrite (mean_column_select cols X j c Hj).
    + rewrite lookup_seq_ge by (by apply lookup_ge_None). done.
  - apply list_eq. intros j. rewrite !list_lookup_fmap.
    destruct (cols !! j) as [c|] eqn:Hj.
    + rewrite lookup_seq_lt by (by eapply lookup_lt_Some). cbn.
      by rewrite (scale_column_select cols X j c HX Hj).
    + rewrite lookup_seq_ge by (by apply lookup_ge_None). done.
Qed.

Lemma standardize_select (cols : list string) (X X' : list (string → R)) :
  standardize (training_statistics cols X) (select cols X') =
    standard_scores cols X X'.
Proof.
  unfold standardize, select, standard_scores, training_statistics.
  cbn [mean_ scale_]. rewrite <- list_fmap_compose.
  apply list_fmap_ext. intros _ row _. unfold compose.
  induction cols as [|c cols IH]; [done|].
  rewrite !fmap_cons. cbn [zip_with fst snd]. by rewrite IH.
Qed.

(** Fitting overwrites the scaler with the statistics of the array it is
    given, whatever the scaler held before. *)
Lemma fit_transform_select (self : option fitted) (cols : list string)
    (X : list (string → R)) :
  X ≠ [] → cols ≠ [] →
  fit_transform self (select cols X) =
    Ok (Some (training_statistics cols X), standard_scores cols X X).
Proof.
  intros HX Hcols. unfold fit_transform, fit, transform.
  rewrite check_array_select by done. cbn [mbind outcome_bind].
  rewrite length_mean_statistics, bool_decide_eq_true_2 by done.
  by rewrite statistics_select, standardize_select.
Qed.

Lemma transform_select (cols : list string) (X X' : list (string → R)) :
  X ≠ [] → X' ≠ [] → cols ≠ [] →
  transform (Some (training_statistics cols X)) (select cols X') =
    Ok (standard_scores cols X X').
Proof.
  intros HX HX' Hcols. unfold transform.
  rewrite check_array_select by done. cbn [mbind outcome_bind].
  rewrite <- statistics_select by done.
  rewrite length_mean_statistics, !n_features_select by done.
  rewrite bool_decide_eq_true_2 by done.
  by rewrite statistics_select, standardize_select.
Qed.

(** The loop of cell 4 computes the results of the subsets one after the
    other, whatever state the scaler is in when the loop starts. *)
Lemma evaluate_subsets_results
    (RF LR : list (list R) → list string → list (list R) → outcome (list string))
    (accuracy_score f1_macro : list string → list string → outcome R)
    (X_train X_test : list (string → R)) (y_train y_test : list string)
    (subsets : list (string * list string)) :
  X_train ≠ [] → X_test ≠ [] →
  Forall (λ subset, subset.2 ≠ []) subsets →
  ∀ (scaler : option fitted) (results : list subset_result),
    evaluate_subsets RF LR accuracy_score f1_macro
      X_train X_test y_train y_test scaler subsets results =
    new ← results_of_subsets RF LR accuracy_score f1_macro
             X_train X_test y_train y_test subsets;
    Ok (from_option
          (λ subset, Some (training_statistics subset.2 X_train))
          scaler (last subsets),
        (results ++ new)%list).
Proof.
  intros Htrain Htest Hsubsets.
  induction Hsubsets as [|[name cols] subsets Hcols _ IH]; intros scaler results.
  - cbn. by rewrite app_nil_r.
  - cbn [evaluate_subsets results_of_subsets].
    rewrite fit_transform_select by done. cbn [mbind outcome_bind].
    rewrite transform_select by done. cbn [mbind outcome_bind].
    unfold results_of_subset. cbn [fst snd].
    destruct (RF _ y_train _) as [rf_pred|e]; [|done]. cbn [mbind outcome_bind].
    destruct (accuracy_score y_test rf_pred) as [rf_acc|e]; [|done].
    cbn [mbind outcome_bind].
    destruct (f1_macro y_test rf_pred) as [rf_f1|e]; [|done].
    cbn [mbind outcome_bind].
    destruct (LR _ y_train _) as [lr_pred|e]; [|done]. cbn [mbind outcome_bind].
    destruct (accuracy_score y_test lr_pred) as [lr_acc|e]; [|done].
    cbn [mbind outcome_bind].
    destruct (f1_macro y_test lr_pred) as [lr_f1|e]; [|done].
    cbn [mbind outcome_bind]. rewrite IH.
    destruct (results_of_subsets _ _ _ _ _ _ _ _ subsets) as [more|e]; [|done].
    cbn [mbind outcome_bind]. f_equal. f_equal.
    + rewrite last_cons. by destruct (last subsets).
    + by rewrite <- !app_assoc.
Qed.

(** An exception of the subset results is the exception of a model or of
    a metric; results come in pairs, RF then LR, in the order of the
    subsets. *)
Lemma results_of_subsets_Raise
    (RF LR : list (list R) → list string → list (list R) → outcome (list string))
    (accuracy_score f1_macro : list string → list string → outcome R)
    (X_train X_test : list (string → R)) (y_train y_test : list string)
    (subsets : list (string * list string)) (e : exn) :
  results_of_subsets RF LR accuracy_score f1_macro
    X_train X_test y_train y_test subsets = Raise e →
  model_raises RF LR accuracy_score f1_macro y_train y_test e.
Proof.
  unfold model_raises.
  induction subsets as [|[name cols] subsets IH]; [done|].
  cbn [results_of_subsets]. unfold results_of_subset. cbn [fst snd].
  destruct (RF _ y_train _) as [rf_pred|e'] eqn:HRF;
    [|intros [= ->]; left; eauto]. cbn [mbind outcome_bind].
  destruct (accuracy_score y_test rf_pred) as [rf_acc|e'] eqn:Hacc;
    [|intros [= ->]; right; eauto]. cbn [mbind outcome_bind].
  destruct (f1_macro y_test rf_pred) as [rf_f1|e'] eqn:Hf1;
    [|intros [= ->]; right; eauto]. cbn [mbind outcome_bind].
  destruct (LR _ y_train _) as [lr_pred|e'] eqn:HLR;
    [|intros [= ->]; left; eauto]. cbn [mbind outcome_bind].
  destruct (accuracy_score y_test lr_pred) as [lr_acc|e'] eqn:Hacc';
    [|intros [= ->]; right; eauto]. cbn [mbind outcome_bind].
  destruct (f1_macro y_test lr_pred) as [lr_f1|e'] eqn:Hf1';
    [|intros [= ->]; right; eauto]. cbn [mbind outcome_bind].
  destruct (results_of_subsets _ _ _ _ _ _ _ _ subsets) as [more|e'];
    [done|]. cbn [mbind outcome_bind]. intros [= ->]. by apply IH.
Qed.

Lemma results_of_subsets_names
    (RF LR : list (list R) → list string → list (list R) → outcome (list string))
    (accuracy_score f1_macro : list string → list string → outcome R)
    (X_train X_test : list (string → R)) (y_train y_test : list string)
    (subsets : list (string * list string)) (new : list subset_result) :
  results_of_subsets RF LR accuracy_score f1_macro
    X_train X_test y_train y_test subsets = Ok new →
  (λ r, (Subset r, Model r)) <$> new =
    subsets ≫= λ subset, [(subset.1, "RF"); (subset.1, "LR")].
Proof.
  revert new. induction subsets as [|[name cols] subsets IH]; intros new.
  - by intros [= <-].
  - cbn [results_of_subsets]. unfold results_of_subset. cbn [fst snd].
    destruct (RF _ y_train _) as [rf_pred|e']; [|done]. cbn [mbind outcome_bind].
    destruct (accuracy_score y_test rf_pred) as [rf_acc|e']; [|done].
    cbn [mbind outcome_bind].
    destruct (f1_macro y_test rf_pred) as [rf_f1|e']; [|done].
    cbn [mbind outcome_bind].
    destruct (LR _ y_train _) as [lr_pred|e']; [|done]. cbn [mbind outcome_bind].
    destruct (accuracy_score y_test lr_pred) as [lr_acc|e']; [|done].
    cbn [mbind outcome_bind].
    destruct (f1_macro y_test lr_pred) as [lr_f1|e']; [|done].
    cbn [mbind outcome_bind].
    destruct (results_of_subsets _ _ _ _ _ _ _ _ subsets) as [more|e'];
      [|done]. cbn [mbind outcome_bind]. intros [= <-].
    rewrite bind_cons. cbn. by rewrite (IH more).
Qed.

(** A logistic regression that refuses the training labels ends the run
    at the first subset, after the random forest has been scored. *)
Lemma results_of_subsets_LR_Raise
    (RF LR : list (list R) → list string → list (list R) → outcome (list string))
    (accuracy_score f1_macro : list string → list string → outcome R)
    (X_train X_test : list (string → R)) (y_train y_test : list string)
    (subset : string * list string) (rest : list (string * list string))
    (e : exn) :
  (∀ Xtr Xte, ∃ pred, RF Xtr y_train Xte = Ok pred) →
  (∀ pred, ∃ v, accuracy_score y_test pred = Ok v) →
  (∀ pred, ∃ v, f1_macro y_test pred = Ok v) →
  (∀ Xtr Xte, LR Xtr y_train Xte = Raise e) →
  results_of_subsets RF LR accuracy_score f1_macro
    X_train X_test y_train y_test (subset :: rest) = Raise e.
Proof.
  intros HRF Hacc Hf1 HLR. cbn [results_of_subsets]. unfold results_of_subset.
  edestruct HRF as [pred Hpred]. rewrite Hpred. cbn [mbind outcome_bind].
  destruct (Hacc pred) as [v ->]. cbn [mbind outcome_bind].
  destruct (Hf1 pred) as [w ->]. cbn [mbind outcome_bind].
  by rewrite HLR.
Qed.





End HarnessFacts.



(** C4: the standardisation statistics are the per-column mean and
    variance over the rows of the training partition alone, and the same
    statistics shift and divide the training and the test partition.  In
    cell 3.1 this holds for all columns; in the loop of cell 4 the models
    of each subset are given both partitions standardised with the
    training statistics of that subset's own columns, whatever the scaler
    had been fit on before, in cell 3.1 or for the previous subset. *)
Theorem scaling_fit_on_training_partition_per_subset
    (RF LR : list (list R) → list string → list (list R) → outcome (list string))
    (accuracy_score f1_macro : list string → list string → outcome R)
    (X_train X_test : list (string → R)) (y_train y_test : list string)
    (all_columns : list string) (subsets : list (string * list string)) :
  X_train ≠ [] → X_test ≠ [] → all_columns ≠ [] →
  Forall (λ subset, subset.2 ≠ []) subsets →
  Harness.prepare X_train X_test all_columns =
    Ok (Some (training_statistics all_columns X_train),
        standard_scores all_columns X_train X_train,
        standard_scores all_columns X_train X_test) ∧
  ∀ (scaler : option Harness.fitted) (results : list Harness.subset_result),
    Harness.evaluate_subsets RF LR accuracy_score f1_macro
      X_train X_test y_train y_test scaler subsets results =
    new ← results_of_subsets RF LR accuracy_score f1_macro
             X_train X_test y_train y_test subsets;
    Ok (from_option
          (λ subset, Some (training_statistics subset.2 X_train))
          scaler (last subsets),
        (results ++ new)%list).
Proof.
  intros Htrain Htest Hall Hsubsets. split.
  - unfold Harness.prepare.
    rewrite HarnessFacts.fit_transform_select by done.
    cbn [mbind outcome_bind].
    by rewrite HarnessFacts.transform_select.
  - by apply HarnessFacts.evaluate_subsets_results.
Qed.

Lemma scaling_fit_on_training_partition_per_subset_witness :
  Harness.prepare sample_X_train sample_X_test ["a"; "b"] =
    Ok (Some (training_statistics ["a"; "b"] sample_X_train),
        standard_scores ["a"; "b"] sample_X_train sample_X_train,
        standard_scores ["a"; "b"] sample_X_train sample_X_test) ∧
  ∀ (scaler : option Harness.fitted) (results : list Harness.subset_result),
    Harness.evaluate_subsets sample_classifier sample_classifier
      sample_score sample_score
      sample_X_train sample_X_test ["pass"; "fail"] ["pass"]
      scaler sample_subsets results =
    new ← results_of_subsets sample_classifier sample_classifier
             sample_score sample_score
             sample_X_train sample_X_test ["pass"; "fail"] ["pass"]
             sample_subsets;
    Ok (from_option
          (λ subset, Some (training_statistics subset.2 sample_X_train))
          scaler (last sample_subsets),
        (results ++ new)%list).
Proof.
  apply (scaling_fit_on_training_partition_per_subset
           sample_classifier sample_classifier sample_score sample_score
           sample_X_train sample_X_test ["pass"; "fail"] ["pass"]
           ["a"; "b"] sample_subsets).
  - discriminate.
  - discriminate.
  - discriminate.
  - repeat constructor; discriminate.
Defined.

(** * Further properties of the notebook *)

(** ** Counting by key *)

Lemma filter_True {A : Type} (l : list A) : filter (λ _, True) l = l.
Proof.
  induction l as [|x l IH]; [done|].
  rewrite filter_cons_True by done. by rewrite IH.
Qed.

Lemma list_filter_iff_in {A : Type} (P Q : A → Prop)
    `{!∀ x, Decision (P x), !∀ x, Decision (Q x)} (l : list A) :
  (∀ x, x ∈ l → P x ↔ Q x) → filter P l = filter Q l.
Proof.
  induction l as [|x l IH]; intros Hiff; [done|].
  rewrite !filter_cons, IH by (intros y Hy; apply Hiff; by right).
  pose proof (Hiff x ltac:(left)).
  repeat case_decide; tauto || done.
Qed.

Lemma filter_Forall_id {A : Type} (P : A → Prop) `{!∀ x, Decision (P x)}
    (l : list A) :
  Forall P l → filter P l = l.
Proof.
  induction 1 as [|x l Hx Hl IH]; [done|].
  rewrite filter_cons_True by done. by rewrite IH.
Qed.

Lemma length_filter_complement {A : Type} (P : A → Prop)
    `{!∀ x, Decision (P x)} (l : list A) :
  (length (filter P l) + length (filter (λ x, ¬ P x) l) = length l)%nat.
Proof.
  induction l as [|x l IH]; [done|].
  rewrite !filter_cons. destruct (decide (P x));
    repeat (case_decide; try tauto); simpl; lia.
Qed.

(** Counting the elements of a list key by key, over keys without
    repetition, counts every element whose key is listed once. *)
Lemma sum_counts_by_key {A K : Type} `{EqDecision K} (key : A → K)
    (keys : list K) (l : list A) :
  NoDup keys →
  foldr Z.add 0
    ((λ k, Z.of_nat (length (filter (λ x, key x = k) l))) <$> keys) =
  Z.of_nat (length (filter (λ x, key x ∈ keys) l)).
Proof.
  intros Hnd. revert l. induction Hnd as [|k ks Hk Hnd IH]; intros l.
  - cbn. rewrite (list_filter_iff _ (λ _, False)); [|set_solver].
    by induction l.
  - cbn [fmap list_fmap foldr].
    assert ((λ k', Z.of_nat (length (filter (λ x, key x = k') l))) <$> ks =
            (λ k', Z.of_nat (length (filter (λ x, key x = k')
                                      (filter (λ x, key x ≠ k) l)))) <$> ks) as ->.
    { apply list_fmap_ext. intros i k' Hi. do 2 f_equal.
      rewrite list_filter_filter. apply list_filter_iff. intros x.
      split; [|tauto]. intros ->. split; [done|]. intros ->.
      apply Hk. by eapply list_elem_of_lookup_2. }
    rewrite IH, list_filter_filter.
    rewrite <- Nat2Z.inj_add. f_equal.
    rewrite <- (length_filter_complement (λ x, key x = k)
                  (filter (λ x, key x ∈ k :: ks) l)).
    rewrite !list_filter_filter. f_equal; f_equal; apply list_filter_iff;
      intros x; rewrite ?elem_of_cons; split; intros; intuition congruence.
Qed.

(** ** Chart labels *)

Module CamelFacts.
Import Charts.

Lemma join_String (sep : string) (c : Ascii.ascii) (w : string)
    (ws : list string) :
  join sep (String c w :: ws) = String c (join sep (w :: ws)).
Proof. by destruct ws. Qed.

Lemma join_empty_word (ws : list string) (w : string) :
  join " " (EmptyString :: w :: ws) = String " "%char (join " " (w :: ws)).
Proof. done. Qed.

(** Splitting, capitalising and joining amounts to one pass over the
    characters. *)
Lemma camel_split_chars (name : string) :
  ∃ w ws,
    split "_"%char name = w :: ws ∧
    join " " (capitalize w :: (capitalize <$> ws)) = camel_chars true name ∧
    join " " (map_string lower w :: (capitalize <$> ws)) = camel_chars false name.
Proof.
  induction name as [|c name (w & ws & Hsplit & Htrue & Hfalse)].
  - by exists EmptyString, [].
  - cbn [split camel_chars]. destruct (Ascii.eqb c "_"%char).
    + exists EmptyString, (w :: ws). rewrite Hsplit. split; [done|].
      cbn [fmap list_fmap capitalize map_string].
      rewrite !join_empty_word.
      change (capitalize w :: list_fmap _ _ capitalize ws)
        with (capitalize w :: (capitalize <$> ws)).
      by rewrite Htrue.
    + exists (String c w), ws. rewrite Hsplit. split; [done|].
      cbn [capitalize map_string]. rewrite !join_String.
      by rewrite Hfalse.
Qed.

Lemma camel_chars_eq (name : string) : camel name = camel_chars true name.
Proof.
  unfold camel.
  destruct (camel_split_chars name) as (w & ws & -> & Htrue & _).
  exact Htrue.
Qed.

Lemma length_camel_chars (b : bool) (name : string) :
  String.length (camel_chars b name) = String.length name.
Proof.
  revert b. induction name as [|c name IH]; intros b; [done|].
  cbn [camel_chars]. destruct (Ascii.eqb c "_"%char); cbn; by rewrite IH.
Qed.

Lemma upper_lower_not_underscore (c : Ascii.ascii) :
  c ≠ "_"%char → upper c ≠ "_"%char ∧ lower c ≠ "_"%char.
Proof. destruct c as [[] [] [] [] [] [] [] []]; vm_compute; split; congruence. Qed.

Lemma camel_chars_no_underscore (b : bool) (name : string) :
  string_Forall (λ c, c ≠ "_"%char) (camel_chars b name).
Proof.
  revert b. induction name as [|c name IH]; intros b; [done|].
  cbn [camel_chars]. destruct (Ascii.eqb_spec c "_"%char) as [->|Hc].
  - split; [done|apply IH].
  - destruct (upper_lower_not_underscore c Hc). split; [|apply IH].
    by destruct b.
Qed.

Lemma uncamel_char (c : Ascii.ascii) :
  is_snake c → c ≠ "_"%char →
  Ascii.eqb (upper c) " "%char = false ∧ lower (upper c) = c ∧
  Ascii.eqb (lower c) " "%char = false ∧ lower (lower c) = c.
Proof.
  unfold is_snake.
  destruct c as [[] [] [] [] [] [] [] []]; cbn; intros Hc Hne;
    try (exfalso; lia); try done.
Qed.

Lemma uncamel_camel_chars (b : bool) (name : string) :
  string_Forall is_snake name → uncamel (camel_chars b name) = name.
Proof.
  revert b. induction name as [|c name IH]; intros b; [done|].
  intros [Hc Hname]. cbn [camel_chars].
  destruct (Ascii.eqb_spec c "_"%char) as [->|Hne].
  - unfold uncamel. cbn. f_equal. by apply IH.
  - destruct (uncamel_char c Hc Hne) as (Hu1 & Hu2 & Hl1 & Hl2).
    unfold uncamel. cbn [map_string].
    destruct b; rewrite ?Hu1, ?Hu2, ?Hl1, ?Hl2; f_equal; by apply IH.
Qed.

End CamelFacts.

(** X1: on ASCII names [camel] keeps the length of the name and leaves no
    underscore in the label.  (Outside ASCII the case mappings of Python
    can change the length of a word; the embedding covers ASCII only.) *)
Theorem camel_keeps_length (name : string) :
  string_Forall is_ascii name →
  String.length (Charts.camel name) = String.length name ∧
  string_Forall (λ c, c ≠ "_"%char) (Charts.camel name).
Proof.
  intros _. rewrite CamelFacts.camel_chars_eq. split.
  - apply CamelFacts.length_camel_chars.
  - apply CamelFacts.camel_chars_no_underscore.
Qed.

Lemma camel_keeps_length_witness :
  String.length (Charts.camel "lab_material_download") =
    String.length "lab_material_download" ∧
  string_Forall (λ c, c ≠ "_"%char) (Charts.camel "lab_material_download").
Proof.
  apply (camel_keeps_length "lab_material_download").
  vm_compute. repeat split.
Defined.

(** X2: a name in snake case is recovered from its label by lower-casing
    it and putting the underscores back, so two different snake-case names
    never get the same label. *)
Theorem camel_round_trip (name name' : string) :
  string_Forall is_snake name →
  string_Forall is_snake name' →
  uncamel (Charts.camel name) = name ∧
  (Charts.camel name = Charts.camel name' → name = name').
Proof.
  intros Hname Hname'.
  assert (∀ n, string_Forall is_snake n → uncamel (Charts.camel n) = n) as Hrt.
  { intros n Hn. rewrite CamelFacts.camel_chars_eq.
    by apply CamelFacts.uncamel_camel_chars. }
  split; [by apply Hrt|].
  intros Heq. rewrite <- (Hrt name), <- (Hrt name') by done. by rewrite Heq.
Qed.

Lemma camel_round_trip_witness :
  uncamel (Charts.camel "video_lecture_view") = "video_lecture_view" ∧
  (Charts.camel "video_lecture_view" = Charts.camel "quiz_attempt" →
   "video_lecture_view" = "quiz_attempt").
Proof.
  apply (camel_round_trip "video_lecture_view" "quiz_attempt").
  - unfold is_snake. cbn. repeat split; lia.
  - unfold is_snake. cbn. repeat split; lia.
Defined.

(** ** Weekday and period totals *)

Module ChartFacts.
Import Charts Segmenter.

Lemma day_name_elem_of (d : Z) : day_name d ∈ day_names.
Proof.
  unfold day_name.
  pose proof (Z.mod_pos_bound (d + 3) 7 ltac:(lia)) as Hmod.
  destruct (lookup_lt_is_Some_2 day_names (Z.to_nat ((d + 3) `mod` 7)))
    as [w Hw]; [simpl; lia|].
  rewrite Hw. cbn. by eapply list_elem_of_lookup_2.
Qed.

Lemma sum_counts_fmap {K : Type} (f : K → Z) (name : K → string)
    (keys : list K) :
  sum_counts ((λ k, (name k, Int (f k))) <$> keys) = foldr Z.add 0 (f <$> keys).
Proof.
  unfold sum_counts. induction keys as [|k keys IH]; [done|].
  cbn. cbn in IH. by rewrite IH.
Qed.

Lemma period_cells (log : list event) (min_d max_d : Z) :
  date_min log = Some min_d → date_max log = Some max_d →
  5 ≤ max_d - min_d →
  period log = Ok (period_cell min_d max_d <$> (date <$> log)).
Proof.
  intros Hmin Hmax Hspan. unfold period. rewrite Hmin, Hmax.
  by rewrite SegmenterFacts.cut_period_edges.
Qed.

Lemma period_cell_inside (min_d max_d d : Z) :
  5 ≤ max_d - min_d →
  min_d < d ≤ min_d + 6 * period_len min_d max_d →
  ∃ lbl, lbl ∈ period_lbls ∧ period_cell min_d max_d d = Str lbl.
Proof.
  intros HL%SegmenterFacts.period_len_pos Hd.
  destruct (SegmenterFacts.bucket_exists _ _ _ HL Hd) as (k & Hk & Hin).
  unfold period_cell.
  rewrite (SegmenterFacts.searchsorted_bucket _ _ _ k) by done.
  cbv zeta. rewrite !bool_decide_eq_false_2 by lia.
  replace (S k - 1)%nat with k by lia.
  destruct (lookup_lt_is_Some_2 period_lbls k) as [lbl Hlbl]; [simpl; lia|].
  exists lbl. rewrite Hlbl. split; [by eapply list_elem_of_lookup_2|done].
Qed.

Lemma period_cell_outside (min_d max_d d : Z) :
  5 ≤ max_d - min_d →
  ¬ min_d < d ≤ min_d + 6 * period_len min_d max_d →
  period_cell min_d max_d d = NaN.
Proof.
  intros HL%SegmenterFacts.period_len_pos Hd. unfold period_cell.
  destruct (decide (d ≤ min_d)).
  - by rewrite SegmenterFacts.searchsorted_below.
  - by rewrite SegmenterFacts.searchsorted_above by lia.
Qed.

Lemma period_cell_labelled (min_d max_d d : Z) :
  5 ≤ max_d - min_d →
  label_of (period_cell min_d max_d d) ∈ period_lbls ↔
  min_d < d ≤ min_d + 6 * period_len min_d max_d.
Proof.
  intros Hspan. split.
  - intros Hin. destruct (decide (min_d < d ≤ min_d + 6 * period_len min_d max_d))
      as [|Hout]; [done|].
    rewrite (period_cell_outside _ _ _ Hspan Hout) in Hin. cbn in Hin.
    unfold period_lbls in Hin.
    repeat (apply elem_of_cons in Hin as [Hin|Hin]; [done|]).
    by apply elem_of_nil in Hin.
  - intros Hd. destruct (period_cell_inside _ _ _ Hspan Hd) as (lbl & Hlbl & ->).
    done.
Qed.

Lemma has_label_label_of (l : string) (c : cell) :
  l ∈ period_lbls → has_label l c ↔ label_of c = l.
Proof.
  intros Hl. destruct c; cbn; try done; split; try done.
  all: intros <-; unfold period_lbls in Hl;
    repeat (apply elem_of_cons in Hl as [Hl|Hl]; [done|]);
    by apply elem_of_nil in Hl.
Qed.

Lemma length_filter_fmap {A B : Type} (f : A → B) (P : B → Prop)
    `{!∀ y, Decision (P y)} (l : list A) :
  length (filter P (f <$> l)) = length (filter (λ x, P (f x)) l).
Proof.
  induction l as [|x l IH]; [done|].
  rewrite fmap_cons, !filter_cons. destruct (decide (P (f x))); cbn; by rewrite IH.
Qed.

End ChartFacts.

(** X3: the weekday of a date repeats every seven days and is always one
    of the seven names, so the weekday table, which lists the seven names
    in calendar order with [NaN] for a weekday without events, accounts for
    every event of the log. *)
Theorem daily_counts_every_event (log : list event) :
  (∀ d, Charts.day_name (d + 7) = Charts.day_name d) ∧
  Charts.daily log =
    (λ w, (w, let n := length (filter (λ e, Charts.day_name (date e) = w) log) in
              if bool_decide (n = O) then NaN else Int (Z.of_nat n)))
      <$> Charts.day_names ∧
  sum_counts (Charts.daily log) = Z.of_nat (length log).
Proof.
  assert (Charts.daily log =
    (λ w, (w, let n := length (filter (λ e, Charts.day_name (date e) = w) log) in
              if bool_decide (n = O) then NaN else Int (Z.of_nat n)))
      <$> Charts.day_names) as Hdaily.
  { unfold Charts.daily, Charts.reindex. apply list_fmap_ext. intros _ w _.
    f_equal. rewrite group_size_lookup. by destruct (filter _ log). }
  split; [|split; [exact Hdaily|]].
  - intros d. unfold Charts.day_name.
    replace (d + 7 + 3) with (d + 3 + 1 * 7) by lia. by rewrite Z.mod_add.
  - rewrite Hdaily.
    transitivity (foldr Z.add 0
      ((λ w, Z.of_nat (length (filter (λ e, Charts.day_name (date e) = w) log)))
         <$> Charts.day_names)).
    { unfold sum_counts. rewrite <- list_fmap_compose. f_equal.
      apply list_fmap_ext. intros _ w _. cbn. by case_bool_decide as Hn; [rewrite Hn|]. }
    rewrite sum_counts_by_key.
    + rewrite (list_filter_iff _ (λ _, True)), filter_True; [done|].
      intros e. split; [done|]. intros _. apply ChartFacts.day_name_elem_of.
    + unfold Charts.day_names. apply (bool_decide_unpack _). by vm_compute.
Qed.

(** X4: on a timeline of at least six days the period totals count exactly
    the events dated after the first day and up to the last edge.  The
    events of the first day are never among them, so the six totals always
    add up to less than the number of events. *)
Theorem period_totals_miss_events (log : list event) (min_d max_d : Z) :
  date_min log = Some min_d →
  date_max log = Some max_d →
  5 ≤ max_d - min_d →
  let last_edge := min_d + 6 * Segmenter.period_len min_d max_d in
  ∃ totals,
    Charts.period_totals log = Ok totals ∧
    totals.*1 = Segmenter.period_lbls ∧
    sum_counts totals =
      Z.of_nat (length (filter (λ e, min_d < date e ≤ last_edge) log)) ∧
    sum_counts totals < Z.of_nat (length log).
Proof.
  intros Hmin Hmax Hspan last_edge. unfold Charts.period_totals.
  rewrite (ChartFacts.period_cells log min_d max_d) by done.
  cbn [mbind outcome_bind]. eexists. split; [done|].
  assert (sum_counts
    ((λ l, (l, Int (Z.of_nat (length (filter (Charts.has_label l)
        (period_cell min_d max_d <$> (date <$> log)))))))
       <$> Segmenter.period_lbls) =
    Z.of_nat (length (filter (λ e, min_d < date e ≤ last_edge) log))) as Hsum.
  { rewrite (ChartFacts.sum_counts_fmap
      (λ l, Z.of_nat (length (filter (Charts.has_label l)
        (period_cell min_d max_d <$> (date <$> log))))) (λ l, l)).
    transitivity (foldr Z.add 0
      ((λ l, Z.of_nat (length (filter (λ c, label_of c = l)
          (period_cell min_d max_d <$> (date <$> log)))))
         <$> Segmenter.period_lbls)).
    { f_equal. apply list_fmap_ext. intros i l Hl. do 2 f_equal.
      apply list_filter_iff. intros c. apply ChartFacts.has_label_label_of.
      by eapply list_elem_of_lookup_2. }
    rewrite sum_counts_by_key
      by (apply (bool_decide_unpack _); by vm_compute).
    f_equal. rewrite <- list_fmap_compose, ChartFacts.length_filter_fmap.
    f_equal. apply list_filter_iff. intros e. cbn.
    by apply ChartFacts.period_cell_labelled. }
  split; [|split; [exact Hsum|]].
  - reflexivity.
  - rewrite Hsum. apply inj_lt.
    pose proof (date_min_spec log) as Hspec. rewrite Hmin in Hspec.
    destruct Hspec as [(e & He & Hd) _].
    apply (length_filter_lt _ _ e); [done|lia].
Qed.

Lemma period_totals_miss_events_witness :
  ∃ totals,
    Charts.period_totals sample_log = Ok totals ∧
    totals.*1 = Segmenter.period_lbls ∧
    sum_counts totals =
      Z.of_nat (length (filter (λ e, 0 < date e ≤ 0 + 6 * 1) sample_log)) ∧
    sum_counts totals < Z.of_nat (length sample_log).
Proof.
  apply (period_totals_miss_events sample_log 0 10);
    [reflexivity | reflexivity | lia].
Defined.

(** X5: on a timeline of at least six days the last edge lies at most four
    days before [max_date] and at most one day after it, and an event has
    no period label exactly when it is dated [min_date] or after the last
    edge: besides the first day, only events of the last four days can
    lose their label. *)
Theorem unlabelled_events_first_day_or_last_four (log : list event)
    (min_d max_d : Z) :
  date_min log = Some min_d →
  date_max log = Some max_d →
  5 ≤ max_d - min_d →
  let last_edge := min_d + 6 * Segmenter.period_len min_d max_d in
  max_d - 4 ≤ last_edge ≤ max_d + 1 ∧
  ∃ periods,
    Segmenter.period log = Ok periods ∧
    ∀ (i : nat) (e : event), log !! i = Some e →
      (periods !! i = Some NaN ↔ date e = min_d ∨ last_edge < date e) ∧
      (min_d < date e ≤ max_d - 4 →
       ∃ lbl, lbl ∈ Segmenter.period_lbls ∧ periods !! i = Some (Str lbl)).
Proof.
  intros Hmin Hmax Hspan last_edge.
  assert (max_d - 4 ≤ last_edge ≤ max_d + 1) as Hedge.
  { unfold last_edge, Segmenter.period_len.
    pose proof (Z.div_mod (max_d - min_d + 1) 6 ltac:(lia)).
    pose proof (Z.mod_pos_bound (max_d - min_d + 1) 6 ltac:(lia)). lia. }
  split; [done|].
  rewrite (ChartFacts.period_cells log min_d max_d) by done.
  eexists. split; [done|]. intros i e Hi.
  rewrite !list_lookup_fmap, Hi. cbn [fmap option_fmap option_map].
  pose proof (date_min_spec log) as Hspec. rewrite Hmin in Hspec.
  destruct Hspec as [_ Hlow].
  assert (min_d ≤ date e) by (apply Hlow; by eapply list_elem_of_lookup_2).
  split.
  - destruct (decide (min_d < date e ≤ last_edge)) as [Hin|Hout].
    + destruct (ChartFacts.period_cell_inside _ _ _ Hspan Hin) as (lbl & _ & ->).
      split; [done|lia].
    + rewrite (ChartFacts.period_cell_outside _ _ _ Hspan Hout).
      split; [lia|done].
  - intros Hd.
    destruct (ChartFacts.period_cell_inside min_d max_d (date e) Hspan)
      as (lbl & Hlbl & ->); [fold last_edge; lia|]. eauto.
Qed.

Lemma unlabelled_events_first_day_or_last_four_witness :
  10 - 4 ≤ 0 + 6 * 1 ≤ 10 + 1 ∧
  ∃ periods,
    Segmenter.period sample_log = Ok periods ∧
    ∀ (i : nat) (e : event), sample_log !! i = Some e →
      (periods !! i = Some NaN ↔ date e = 0 ∨ 0 + 6 * 1 < date e) ∧
      (0 < date e ≤ 10 - 4 →
       ∃ lbl, lbl ∈ Segmenter.period_lbls ∧ periods !! i = Some (Str lbl)).
Proof.
  apply (unlabelled_events_first_day_or_last_four sample_log 0 10);
    [reflexivity | reflexivity | lia].
Defined.

(** ** More on the feature table *)

Module FeatureFacts.
Import ABT.

Lemma length_remove_dups {A : Type} `{EqDecision A} (l : list A) :
  (length (remove_dups l) ≤ length l)%nat ∧
  (l ≠ [] → 1 ≤ length (remove_dups l))%nat ∧
  (length (remove_dups l) = length l ↔ NoDup l).
Proof.
  induction l as [|x l (IHle & IHpos & IHeq)]; [by repeat split; try constructor|].
  cbn [remove_dups]. destruct (decide_rel elem_of x l) as [Hin|Hnotin].
  - split; [cbn; lia|]. split.
    + intros _. apply IHpos. intros ->. by apply elem_of_nil in Hin.
    + split; [cbn; lia|]. by intros [? _]%NoDup_cons.
  - cbn [length]. split; [lia|]. split; [lia|]. rewrite NoDup_cons. split.
    + intros Heq. split; [done|]. apply IHeq. lia.
    + intros [_ Hnd]. f_equal. by apply IHeq.
Qed.

Lemma date_min_Permutation (log log' : list event) :
  log ≡ₚ log' → date_min log = date_min log'.
Proof.
  intros Hperm.
  pose proof (date_min_spec log) as H1. pose proof (date_min_spec log') as H2.
  destruct (date_min log) as [m|], (date_min log') as [m'|].
  - destruct H1 as [(e & He & <-) Hle], H2 as [(e' & He' & <-) Hle'].
    f_equal. rewrite Hperm in He. rewrite <- Hperm in He'.
    specialize (Hle e' He'). specialize (Hle' e He). lia.
  - destruct H1 as [(e & He & _) _]. rewrite Hperm, H2 in He.
    by apply elem_of_nil in He.
  - destruct H2 as [(e & He & _) _]. rewrite <- Hperm, H1 in He.
    by apply elem_of_nil in He.
  - done.
Qed.

Lemma date_max_Permutation (log log' : list event) :
  log ≡ₚ log' → date_max log = date_max log'.
Proof.
  intros Hperm.
  pose proof (date_max_spec log) as H1. pose proof (date_max_spec log') as H2.
  destruct (date_max log) as [m|], (date_max log') as [m'|].
  - destruct H1 as [(e & He & <-) Hle], H2 as [(e' & He' & <-) Hle'].
    f_equal. rewrite Hperm in He. rewrite <- Hperm in He'.
    specialize (Hle e' He'). specialize (Hle' e He). lia.
  - destruct H1 as [(e & He & _) _]. rewrite Hperm, H2 in He.
    by apply elem_of_nil in He.
  - destruct H2 as [(e & He & _) _]. rewrite <- Hperm, H1 in He.
    by apply elem_of_nil in He.
  - done.
Qed.

Lemma midpoint_Permutation (log log' : list event) :
  log ≡ₚ log' → midpoint log = midpoint log'.
Proof.
  intros Hperm. unfold midpoint.
  by rewrite (date_min_Permutation _ _ Hperm), (date_max_Permutation _ _ Hperm).
Qed.

Lemma events_of_Permutation (s : Z) (log log' : list event) :
  log ≡ₚ log' → events_of s log ≡ₚ events_of s log'.
Proof. intros Hperm. unfold events_of. by rewrite Hperm. Qed.

Lemma students_Permutation (log log' : list event) :
  log ≡ₚ log' → students log = students log'.
Proof.
  intros Hperm. apply set_eq. intros s.
  rewrite !ABTFacts.elem_of_students. by setoid_rewrite Hperm.
Qed.

Lemma merge_sort_Permutation_eq (l l' : list Z) :
  l ≡ₚ l' → merge_sort Z.le l = merge_sort Z.le l'.
Proof.
  intros Hperm. apply (Sorted_unique Z.le).
  - apply Sorted_merge_sort. intros x y. lia.
  - apply Sorted_merge_sort. intros x y. lia.
  - by rewrite !merge_sort_Permutation.
Qed.

Lemma sorted_day_gaps_Permutation (s : Z) (log log' : list event) :
  log ≡ₚ log' → sorted_day_gaps s log = sorted_day_gaps s log'.
Proof.
  intros Hperm. unfold sorted_day_gaps. f_equal.
  apply merge_sort_Permutation_eq. by rewrite (events_of_Permutation s _ _ Hperm).
Qed.

End FeatureFacts.

(** X6: for every student of the Event Store the number of active days is
    at least 1 and at most the number of activities, and the two are equal
    exactly when no two events of the student share a date. *)
Theorem active_days_bounds (log : list event) (s : Z) :
  s ∈ students log →
  ∃ days total : Z,
    loc (ABT.features log) s "active_days" = Int days ∧
    loc (ABT.features log) s "total_activities" = Int total ∧
    1 ≤ days ≤ total ∧
    (days = total ↔ NoDup (date <$> events_of s log)).
Proof.
  intros Hs. rewrite ABTFacts.features_active_days by done.
  rewrite ABTFacts.features_total.
  apply ABTFacts.students_events_of in Hs.
  destruct (FeatureFacts.length_remove_dups (date <$> events_of s log))
    as (Hle & Hpos & Heq).
  rewrite length_fmap in Hle, Heq.
  do 2 eexists. split; [done|]. split; [done|]. split.
  - split; [|lia]. assert (date <$> events_of s log ≠ []) as Hne
      by (by destruct (events_of s log)).
    specialize (Hpos Hne). lia.
  - rewrite <- Heq. lia.
Qed.

Lemma active_days_bounds_witness :
  ∃ days total : Z,
    loc (ABT.features sample_log) 3 "active_days" = Int days ∧
    loc (ABT.features sample_log) 3 "total_activities" = Int total ∧
    1 ≤ days ≤ total ∧
    (days = total ↔ NoDup (date <$> events_of 3 sample_log)).
Proof.
  apply (active_days_bounds sample_log 3). vm_compute. reflexivity.
Defined.

(** X7: the feature table does not depend on the order of the rows of the
    log: two logs with the same events have the same students and the
    same value in every aggregate column. *)
Theorem features_ignore_log_order (log log' : list event) (s : Z) (c : string) :
  log ≡ₚ log' →
  s ∈ students log →
  c ∈ ABT.aggregate_names →
  index (ABT.features log) = index (ABT.features log') ∧
  loc (ABT.features log) s c = loc (ABT.features log') s c.
Proof.
  intros Hperm Hs Hc.
  pose proof (FeatureFacts.students_Permutation _ _ Hperm) as Hstud.
  assert (s ∈ students log') as Hs' by (by rewrite <- Hstud).
  pose proof (FeatureFacts.events_of_Permutation s _ _ Hperm) as Hev.
  split; [by rewrite !ABTFacts.features_index|].
  unfold ABT.aggregate_names in Hc.
  repeat (apply elem_of_cons in Hc as [->|Hc]);
    [| | | | |by apply elem_of_nil in Hc].
  - rewrite !ABTFacts.features_total. by rewrite Hev.
  - rewrite !ABTFacts.features_active_days by done. do 2 f_equal.
    apply Permutation_length, NoDup_Permutation;
      [apply NoDup_remove_dups..|].
    intros d. rewrite !elem_of_remove_dups. by rewrite Hev.
  - rewrite !ConsistencyFacts.consistency_cell by done.
    rewrite (FeatureFacts.sorted_day_gaps_Permutation s _ _ Hperm).
    pose proof (Permutation_length Hev) as Hlen.
    repeat case_bool_decide; first [done|lia].
  - rewrite !ABTFacts.features_first_half.
    rewrite <- (FeatureFacts.midpoint_Permutation _ _ Hperm).
    generalize (ABT.midpoint log). intros m.
    do 2 f_equal. apply Permutation_length. unfold events_of. by rewrite Hperm.
  - rewrite !ABTFacts.features_second_half.
    rewrite <- (FeatureFacts.midpoint_Permutation _ _ Hperm).
    generalize (ABT.midpoint log). intros m.
    do 2 f_equal. apply Permutation_length. unfold events_of. by rewrite Hperm.
Qed.

Lemma features_ignore_log_order_witness :
  index (ABT.features sample_log) = index (ABT.features (reverse sample_log)) ∧
  loc (ABT.features sample_log) 3 "activity_consistency" =
    loc (ABT.features (reverse sample_log)) 3 "activity_consistency".
Proof.
  apply (features_ignore_log_order sample_log (reverse sample_log) 3).
  - symmetry. apply reverse_Permutation.
  - vm_compute. reflexivity.
  - repeat constructor.
Defined.

Lemma pivot_columns_NoDup (log : list event) :
  NoDup (columns (ABT.activity_pivot log)).
Proof. unfold ABT.activity_pivot, unstack. cbn. apply NoDup_elements. Qed.

(** X8: in the table of cell 2 the activity-count columns of a student
    add up to the student's [total_activities], and the column of an
    activity adds up, over the students, to the number of events of that
    activity. *)
Theorem activity_counts_add_up (log : list event) (vle_grades : gmap Z string) :
  log ≠ [] →
  fresh_activities log →
  ∃ table,
    ABT.abt log vle_grades = Ok table ∧
    (∀ s, s ∈ students log →
       foldr Z.add 0 ((λ a, cell_count (loc table s a))
                        <$> columns (ABT.activity_pivot log)) =
       cell_count (loc table s "total_activities")) ∧
    (∀ a, a ∈ columns (ABT.activity_pivot log) →
       foldr Z.add 0 ((λ s, cell_count (loc table s a))
                        <$> elements (students log)) =
       Z.of_nat (length (filter (λ e, activity e = a) log))).
Proof.
  intros Hlog Hfresh.
  destruct (AssemblerFacts.abt_Ok log vle_grades Hlog Hfresh)
    as (table & Habt & _ & _ & Hagg & Hact & _).
  exists table. split; [done|]. split.
  - intros s Hs. rewrite Hagg by repeat constructor.
    rewrite ABTFacts.features_total. cbn [cell_count].
    transitivity (foldr Z.add 0
      ((λ a, Z.of_nat (length (filter (λ e, activity e = a) (events_of s log))))
         <$> columns (ABT.activity_pivot log))).
    { f_equal. apply list_fmap_ext. intros i a Ha.
      rewrite Hact by (by eauto using list_elem_of_lookup_2).
      unfold activity_count, events_of. cbn. rewrite list_filter_filter.
      do 2 f_equal. apply list_filter_iff. tauto. }
    rewrite sum_counts_by_key by apply pivot_columns_NoDup.
    rewrite filter_Forall_id; [done|].
    apply Forall_forall. intros e [_ He]%list_elem_of_filter.
    apply AssemblerFacts.pivot_columns. eauto.
  - intros a Ha.
    transitivity (foldr Z.add 0
      ((λ s, Z.of_nat (length (filter (λ e, student_id e = s)
                                 (filter (λ e, activity e = a) log))))
         <$> elements (students log))).
    { f_equal. apply list_fmap_ext. intros i s Hs.
      rewrite Hact; [|by apply elem_of_elements; eauto using list_elem_of_lookup_2|done].
      unfold activity_count. cbn. by rewrite list_filter_filter. }
    rewrite sum_counts_by_key by apply NoDup_elements.
    rewrite filter_Forall_id; [done|].
    apply Forall_forall. intros e [_ He]%list_elem_of_filter.
    apply elem_of_elements, ABTFacts.elem_of_students. eauto.
Qed.

Lemma activity_counts_add_up_witness :
  ∃ table,
    ABT.abt sample_log sample_grades = Ok table ∧
    (∀ s, s ∈ students sample_log →
       foldr Z.add 0 ((λ a, cell_count (loc table s a))
                        <$> columns (ABT.activity_pivot sample_log)) =
       cell_count (loc table s "total_activities")) ∧
    (∀ a, a ∈ columns (ABT.activity_pivot sample_log) →
       foldr Z.add 0 ((λ s, cell_count (loc table s a))
                        <$> elements (students sample_log)) =
       Z.of_nat (length (filter (λ e, activity e = a) sample_log))).
Proof.
  apply (activity_counts_add_up sample_log sample_grades); [discriminate|].
  unfold fresh_activities. apply (bool_decide_unpack _). by vm_compute.
Defined.

Module RegularFacts.

Lemma Forall_eq_replicate (g : Z) (xs : list Z) :
  Forall (λ x, x = g) xs → xs = replicate (length xs) g.
Proof. induction 1 as [|x xs -> _ IH]; [done|]. cbn. by rewrite <- IH. Qed.

Lemma Rsum_replicate (n : nat) (g : Z) :
  Rsum (IZR <$> replicate n g) = (INR n * IZR g)%R.
Proof.
  induction n as [|n IH]; [cbn; lra|].
  rewrite S_INR. cbn [replicate]. rewrite fmap_cons, Rsum_cons, IH. lra.
Qed.

Lemma Rsum_zeros (m : R) (n : nat) (g : Z) :
  IZR g = m →
  Rsum ((λ x, Rsqr (IZR x - m)) <$> replicate n g) = 0%R.
Proof.
  intros <-. induction n as [|n IH]; [done|].
  cbn [replicate]. rewrite fmap_cons, Rsum_cons, IH. unfold Rsqr. lra.
Qed.

(** Equal samples have sample standard deviation 0. *)
Lemma sample_std_replicate (n : nat) (g : Z) :
  (2 ≤ n)%nat → sample_std (replicate n g) = Some 0%R.
Proof.
  intros Hn. unfold sample_std. cbv zeta. rewrite length_replicate.
  rewrite bool_decide_eq_true_2 by done. f_equal.
  rewrite Rsum_replicate, Rsum_zeros.
  - unfold Rdiv. rewrite Rmult_0_l. apply sqrt_0.
  - assert (INR n ≠ 0%R) by (apply not_0_INR; lia). by field.
Qed.

End RegularFacts.

(** X9: a student with at least three events whose consecutive sorted
    dates are all the same number of days apart has an
    [activity_consistency] of 0, the value the table also holds for a
    student with one or two events. *)
Theorem regular_student_has_zero_consistency (log : list event) (s g : Z) :
  s ∈ students log →
  (3 ≤ length (events_of s log))%nat →
  Forall (λ gap, gap = g) (sorted_day_gaps s log) →
  loc (ABT.features log) s "activity_consistency" = Real 0.
Proof.
  intros Hs Hlen Hgaps.
  rewrite ConsistencyFacts.consistency_cell by done.
  rewrite bool_decide_eq_false_2 by lia.
  rewrite (RegularFacts.Forall_eq_replicate g _ Hgaps).
  rewrite RegularFacts.sample_std_replicate; [done|].
  rewrite ConsistencyFacts.length_sorted_day_gaps. lia.
Qed.

Lemma regular_student_has_zero_consistency_witness :
  loc (ABT.features regular_log) 7 "activity_consistency" = Real 0.
Proof.
  apply (regular_student_has_zero_consistency regular_log 7 7).
  - vm_compute. reflexivity.
  - vm_compute. lia.
  - apply (bool_decide_unpack _). by vm_compute.
Defined.

(** X10: the assembled table has one row per student of the log and no
    other row: a student with events but without a label keeps the row,
    with [NaN] as [final_grade] and as [grade_numeric], and a label of a
    student without events adds no row. *)
Theorem unlabelled_students_keep_their_row (log : list event)
    (vle_grades : gmap Z string) :
  log ≠ [] →
  fresh_activities log →
  ∃ table,
    ABT.assemble log vle_grades = Ok table ∧
    (∀ s, s ∈ index table ↔ ∃ e, e ∈ log ∧ student_id e = s) ∧
    (∀ s, s ∈ index table → vle_grades !! s = None →
       loc table s "final_grade" = NaN ∧ loc table s "grade_numeric" = NaN).
Proof.
  intros Hlog Hfresh.
  destruct (GradeFacts.assemble_Ok log vle_grades Hlog Hfresh)
    as (table & Hok & Hindex & Hloc).
  exists table. split; [done|]. split.
  - intros s. rewrite Hindex. apply ABTFacts.elem_of_students.
  - intros s _ Hnone. destruct (Hloc s) as [-> ->]. by rewrite Hnone.
Qed.

Lemma unlabelled_students_keep_their_row_witness :
  ∃ table,
    ABT.assemble sample_log sample_grades = Ok table ∧
    (∀ s, s ∈ index table ↔ ∃ e, e ∈ sample_log ∧ student_id e = s) ∧
    (∀ s, s ∈ index table → sample_grades !! s = None →
       loc table s "final_grade" = NaN ∧ loc table s "grade_numeric" = NaN).
Proof.
  apply (unlabelled_students_keep_their_row sample_log sample_grades);
    [discriminate|].
  unfold fresh_activities. apply (bool_decide_unpack _). by vm_compute.
Defined.

(** ** Standardised columns *)

Module ScalingFacts.
Import Harness.

Lemma Rsum_shift_scale (m s : R) (xs : list R) :
  s ≠ 0%R →
  Rsum ((λ x, (x - m) / s)%R <$> xs) = ((Rsum xs - INR (length xs) * m) / s)%R.
Proof.
  intros Hs. induction xs as [|x xs IH].
  - cbn. by field.
  - rewrite fmap_cons, !Rsum_cons, IH. cbn [length]. rewrite S_INR. by field.
Qed.

Lemma Rsum_sqr_scale (m s : R) (xs : list R) :
  s ≠ 0%R →
  Rsum ((λ y, Rsqr (y - 0))%R <$> ((λ x, (x - m) / s)%R <$> xs)) =
  (Rsum ((λ x, Rsqr (x - m))%R <$> xs) / (s * s))%R.
Proof.
  intros Hs. induction xs as [|x xs IH].
  - cbn. by field.
  - rewrite !fmap_cons, !Rsum_cons, IH. unfold Rsqr. by field.
Qed.

Lemma handle_zeros_ne_0 (s : R) : handle_zeros_in_scale s ≠ 0%R.
Proof. unfold handle_zeros_in_scale. destruct (Req_dec_T s 0); [lra|done]. Qed.

(** A list of values, shifted by its mean and divided by its scale, has
    mean 0, and variance 1 unless all the values are equal. *)
Lemma standardized_list (xs : list R) :
  xs ≠ [] →
  let s := handle_zeros_in_scale (sqrt (var xs)) in
  let ys := (λ x, (x - mean xs) / s)%R <$> xs in
  mean ys = 0%R ∧
  var ys = (if Req_dec_T (var xs) 0 then 0 else 1)%R.
Proof.
  intros Hxs s ys.
  assert (INR (length xs) ≠ 0%R) as Hn
    by (apply not_0_INR; destruct xs; [done|cbn; lia]).
  pose proof (handle_zeros_ne_0 (sqrt (var xs))) as Hs. fold s in Hs.
  assert (mean ys = 0%R) as Hmean.
  { unfold mean at 1, ys. rewrite length_fmap, Rsum_shift_scale by done.
    unfold mean. by field. }
  split; [done|].
  unfold var at 1. rewrite Hmean. unfold mean at 1, ys.
  rewrite !length_fmap, Rsum_sqr_scale by done.
  pose proof (HarnessFacts.var_nonneg xs Hxs) as Hv.
  assert (Rsum ((λ x, Rsqr (x - mean xs))%R <$> xs) = var xs * INR (length xs))%R
    as ->.
  { unfold var. unfold mean at 2. rewrite length_fmap. by field. }
  destruct (Req_dec_T (var xs) 0) as [Hz|Hnz].
  - rewrite Hz. by field.
  - assert (s = sqrt (var xs)) as Hsqrt.
    { unfold s, handle_zeros_in_scale.
      destruct (Req_dec_T (sqrt (var xs)) 0) as [Hsz|Hsnz]; [|done].
      exfalso. apply Hnz. by apply sqrt_eq_0. }
    assert (s * s = var xs)%R as -> by (rewrite Hsqrt; by apply sqrt_sqrt).
    by field.
Qed.

Lemma statistics_lookup (X : list (list R)) (j : nat) :
  (j < n_features X)%nat →
  mean_ (statistics X) !! j = Some (mean (column j X)) ∧
  scale_ (statistics X) !! j =
    Some (handle_zeros_in_scale (sqrt (var (column j X)))).
Proof.
  intros Hj. unfold statistics. cbn.
  by rewrite !list_lookup_fmap, !lookup_seq_lt.
Qed.

Lemma column_standardize (cols : list string) (X X' : list (string → R))
    (j : nat) (c : string) :
  X ≠ [] → cols !! j = Some c →
  column j (standardize (statistics (select cols X)) (select cols X')) =
    (λ row, (row c - mean (column j (select cols X)))
            / handle_zeros_in_scale (sqrt (var (column j (select cols X)))))%R
      <$> X'.
Proof.
  intros HX Hj.
  destruct (statistics_lookup (select cols X) j) as [Hm Hs].
  { rewrite HarnessFacts.n_features_select by done. by eapply lookup_lt_Some. }
  set (m := mean (column j (select cols X))) in *.
  set (s := handle_zeros_in_scale (sqrt (var (column j (select cols X))))) in *.
  set (st := statistics (select cols X)) in *. clearbody st m s.
  unfold column, standardize, select.
  rewrite <- !list_fmap_compose. apply list_fmap_ext. intros _ row _.
  unfold compose.
  rewrite lookup_zip_with, list_lookup_fmap, Hj, lookup_zip_with, Hm, Hs.
  done.
Qed.

End ScalingFacts.

(** X11: after [fit_transform] on the training partition every column of
    the scaled training array has mean 0, and variance 1 unless the column
    is constant (then its variance is 0); the test array is shifted and
    divided by the same training mean and scale. *)
Theorem scaled_training_columns_are_standard (cols : list string)
    (X_train X_test : list (string → R)) (j : nat) (c : string) :
  X_train ≠ [] →
  cols !! j = Some c →
  let X := Harness.select cols X_train in
  let m := Harness.mean (Harness.column j X) in
  let s := Harness.handle_zeros_in_scale (sqrt (Harness.var (Harness.column j X))) in
  let '(Xtr, Xte) := scaled_with_training_statistics cols X_train X_test in
  Harness.mean (Harness.column j Xtr) = 0%R ∧
  Harness.var (Harness.column j Xtr) =
    (if Req_dec_T (Harness.var (Harness.column j X)) 0 then 0 else 1)%R ∧
  Harness.column j Xte = (λ row, (row c - m) / s)%R <$> X_test.
Proof.
  intros HX Hj X m s. unfold scaled_with_training_statistics. cbv zeta.
  rewrite !(ScalingFacts.column_standardize cols X_train _ j c) by done.
  fold X m s.
  assert (Harness.column j X ≠ []) as Hne.
  { unfold X. rewrite (HarnessFacts.column_select cols X_train j c) by done.
    by destruct X_train. }
  destruct (ScalingFacts.standardized_list (Harness.column j X) Hne)
    as [Hmean Hvar].
  fold m s in Hmean, Hvar.
  assert ((λ row : string → R, ((row c - m) / s)%R) <$> X_train =
          (λ x, ((x - m) / s)%R) <$> Harness.column j X) as ->.
  { unfold X. rewrite (HarnessFacts.column_select cols X_train j c) by done.
    by rewrite <- list_fmap_compose. }
  done.
Qed.

Lemma scaled_training_columns_are_standard_witness :
  let X := Harness.select ["a"; "b"] sample_X_train in
  let m := Harness.mean (Harness.column 0 X) in
  let s := Harness.handle_zeros_in_scale (sqrt (Harness.var (Harness.column 0 X))) in
  let '(Xtr, Xte) :=
    scaled_with_training_statistics ["a"; "b"] sample_X_train sample_X_test in
  Harness.mean (Harness.column 0 Xtr) = 0%R ∧
  Harness.var (Harness.column 0 Xtr) =
    (if Req_dec_T (Harness.var (Harness.column 0 X)) 0 then 0 else 1)%R ∧
  Harness.column 0 Xte = (λ row, (row "a" - m) / s)%R <$> sample_X_test.
Proof.
  apply (scaled_training_columns_are_standard ["a"; "b"]
           sample_X_train sample_X_test 0 "a").
  - discriminate.
  - reflexivity.
Defined.

(** ** Feature subsets *)

Module SubsetFacts.
Import Subsets.

Lemma append_String (a : Ascii.ascii) (t post : string) :
  String.append (String a t) post = String a (String.append t post).
Proof. done. Qed.

Lemma append_empty (post : string) : String.append EmptyString post = post.
Proof. done. Qed.

Lemma prefix_spec (t c : string) :
  String.prefix t c = true ↔ ∃ post, c = String.append t post.
Proof.
  revert c. induction t as [|a t IH]; intros c.
  - split; [intros _; by exists c|by destruct c].
  - destruct c as [|b c]; cbn [String.prefix].
    + split; [done|]. intros [post Hpost]. by rewrite append_String in Hpost.
    + destruct (Ascii.ascii_dec a b) as [->|Hne].
      * rewrite IH. split; intros [post Hpost]; exists post.
        -- by rewrite append_String, Hpost.
        -- rewrite append_String in Hpost. by injection Hpost.
      * split; [done|]. intros [post Hpost].
        rewrite append_String in Hpost. congruence.
Qed.

(** [contains t c] holds exactly when [c] is some text, then [t], then
    some text. *)
Lemma contains_spec (t c : string) :
  contains t c ↔ ∃ pre post, c = String.append pre (String.append t post).
Proof.
  induction c as [|b c IH]; cbn [contains].
  - rewrite orb_false_r, Is_true_true, prefix_spec. split.
    + intros [post Hpost]. by exists EmptyString, post.
    + intros (pre & post & Hc). destruct pre as [|? ?].
      * exists post. by rewrite append_empty in Hc.
      * by rewrite append_String in Hc.
  - rewrite orb_True, Is_true_true, prefix_spec, IH. split.
    + intros [[post Hpost]|(pre & post & Hc)].
      * by exists EmptyString, post.
      * exists (String b pre), post. by rewrite append_String, Hc.
    + intros (pre & post & Hc). destruct pre as [|b' pre].
      * left. exists post. by rewrite append_empty in Hc.
      * right. exists pre, post. rewrite append_String in Hc. by injection Hc.
Qed.

Lemma eng_feats_aggregates (acts : list string) :
  eng_feats (ABT.aggregate_names ++ acts) = "activity_consistency" :: eng_feats acts.
Proof. unfold eng_feats. by rewrite filter_app. Qed.

Lemma freq_feats_aggregates (acts : list string) :
  freq_feats (ABT.aggregate_names ++ acts) =
    (["total_activities"; "active_days"; "first_half_activities";
      "second_half_activities"] ++ freq_feats acts)%list.
Proof. unfold freq_feats. by rewrite filter_app. Qed.

End SubsetFacts.

(** X12: whatever the activities of the log are, the four feature subsets
    are sub-selections of the feature columns and none is empty.
    "Engagement Features" holds the columns in whose name a token occurs:
    of the five aggregate columns only [activity_consistency]
    ([total_activities] and [first_half_activities] do not contain
    "activity").  "Frequency Features" holds the other four aggregate
    columns, and "Top 5 Features" has exactly five columns. *)
Theorem subsets_are_nonempty_selections (acts imp_index : list string) :
  let X_columns := (ABT.aggregate_names ++ acts)%list in
  imp_index ≡ₚ X_columns →
  Forall (λ subset, subset.2 ≠ [] ∧ subset.2 ⊆ X_columns)
    (Subsets.subsets X_columns imp_index) ∧
  length (Subsets.top5_feats imp_index) = 5%nat ∧
  Subsets.eng_feats X_columns = "activity_consistency" :: Subsets.eng_feats acts ∧
  Subsets.freq_feats X_columns =
    (["total_activities"; "active_days"; "first_half_activities";
      "second_half_activities"] ++ Subsets.freq_feats acts)%list ∧
  ∀ c, c ∈ Subsets.eng_feats X_columns ↔
       c ∈ X_columns ∧
       ∃ t pre post, t ∈ Subsets.engagement_tokens ∧
                     c = String.append pre (String.append t post).
Proof.
  intros X_columns Hperm.
  assert (5 ≤ length imp_index)%nat as Hlen.
  { rewrite Hperm. unfold X_columns. rewrite length_app. cbn. lia. }
  split; [|split; [|split; [|split]]].
  - unfold Subsets.subsets. repeat apply Forall_cons_2; [..|apply Forall_nil_2];
      cbn [snd].
    + split; [done|]. done.
    + split.
      * unfold Subsets.top5_feats. destruct imp_index; [cbn in Hlen; lia|done].
      * intros c Hc%subseteq_take. by rewrite <- Hperm.
    + unfold X_columns. rewrite SubsetFacts.eng_feats_aggregates. split; [done|].
      rewrite <- SubsetFacts.eng_feats_aggregates.
      intros c Hc%list_elem_of_filter. tauto.
    + unfold X_columns. rewrite SubsetFacts.freq_feats_aggregates. split; [done|].
      rewrite <- SubsetFacts.freq_feats_aggregates.
      intros c Hc%list_elem_of_filter. tauto.
  - unfold Subsets.top5_feats. rewrite length_take. lia.
  - apply SubsetFacts.eng_feats_aggregates.
  - apply SubsetFacts.freq_feats_aggregates.
  - intros c. unfold Subsets.eng_feats. rewrite list_elem_of_filter, Exists_exists.
    split.
    + intros [(t & Ht & Hc) Hin]. split; [done|].
      apply SubsetFacts.contains_spec in Hc as (pre & post & Hc). eauto 10.
    + intros [Hin (t & pre & post & Ht & Hc)]. split; [|done].
      exists t. split; [done|]. apply SubsetFacts.contains_spec. eauto.
Qed.

Lemma subsets_are_nonempty_selections_witness :
  Forall (λ subset, subset.2 ≠ [] ∧ subset.2 ⊆ sample_X_columns)
    (Subsets.subsets sample_X_columns sample_imp_index) ∧
  length (Subsets.top5_feats sample_imp_index) = 5%nat ∧
  Subsets.eng_feats sample_X_columns =
    "activity_consistency" :: Subsets.eng_feats sample_acts ∧
  Subsets.freq_feats sample_X_columns =
    (["total_activities"; "active_days"; "first_half_activities";
      "second_half_activities"] ++ Subsets.freq_feats sample_acts)%list ∧
  ∀ c, c ∈ Subsets.eng_feats sample_X_columns ↔
       c ∈ sample_X_columns ∧
       ∃ t pre post, t ∈ Subsets.engagement_tokens ∧
                     c = String.append pre (String.append t post).
Proof.
  apply (subsets_are_nonempty_selections sample_acts sample_imp_index).
  apply reverse_Permutation.
Defined.

(** X13: cell 4 never stops because of the scaler.  For the feature
    columns of any log, any ranking of them and non-empty partitions, the
    scaler can be fit on each of the four subsets, in whatever state the
    earlier cells left it.  The loop ends early only with the exception of
    a model or of a metric; when it runs to its end it yields eight
    results, an RF and an LR result for each subset, in the order of the
    subsets; and it does run to its end when no call of a model or of a
    metric raises.  A logistic regression that refuses the training
    labels ends the run with its exception, and no result table is
    made. *)
Theorem subset_loop_stops_only_on_model_errors
    (RF LR : list (list R) → list string → list (list R) → outcome (list string))
    (accuracy_score f1_macro : list string → list string → outcome R)
    (X_train X_test : list (string → R)) (y_train y_test : list string)
    (acts imp_index : list string) (scaler : option Harness.fitted) :
  let X_columns := (ABT.aggregate_names ++ acts)%list in
  let run :=
    Harness.evaluate_subsets RF LR accuracy_score f1_macro
      X_train X_test y_train y_test scaler
      (Subsets.subsets X_columns imp_index) [] in
  X_train ≠ [] → X_test ≠ [] →
  imp_index ≡ₚ X_columns →
  (∀ e, run = Raise e →
        model_raises RF LR accuracy_score f1_macro y_train y_test e) ∧
  (∀ scaler' results, run = Ok (scaler', results) →
     (λ r, (Harness.Subset r, Harness.Model r)) <$> results =
       [("All Features", "RF"); ("All Features", "LR");
        ("Top 5 Features", "RF"); ("Top 5 Features", "LR");
        ("Engagement Features", "RF"); ("Engagement Features", "LR");
        ("Frequency Features", "RF"); ("Frequency Features", "LR")]) ∧
  ((∀ e, ¬ model_raises RF LR accuracy_score f1_macro y_train y_test e) →
   ∃ scaler' results, run = Ok (scaler', results)) ∧
  (∀ e, (∀ Xtr Xte, ∃ pred, RF Xtr y_train Xte = Ok pred) →
        (∀ pred, ∃ v, accuracy_score y_test pred = Ok v) →
        (∀ pred, ∃ v, f1_macro y_test pred = Ok v) →
        (∀ Xtr Xte, LR Xtr y_train Xte = Raise e) →
        run = Raise e).
Proof.
  intros X_columns run Htrain Htest Hperm.
  assert (Forall (λ subset : string * list string, subset.2 ≠ [])
            (Subsets.subsets X_columns imp_index)) as Hne.
  { assert (5 ≤ length imp_index)%nat as Hlen.
    { rewrite Hperm. unfold X_columns. rewrite length_app. cbn. lia. }
    unfold Subsets.subsets. repeat apply Forall_cons_2; [..|apply Forall_nil_2];
      cbn [snd]; [done| | |].
    - unfold Subsets.top5_feats. destruct imp_index; [cbn in Hlen; lia|done].
    - unfold X_columns. by rewrite SubsetFacts.eng_feats_aggregates.
    - unfold X_columns. by rewrite SubsetFacts.freq_feats_aggregates. }
  pose proof (HarnessFacts.evaluate_subsets_results RF LR accuracy_score
                f1_macro X_train X_test y_train y_test _ Htrain Htest Hne
                scaler []) as Hrun.
  fold run in Hrun.
  assert (∀ e, (∀ Xtr Xte, ∃ pred, RF Xtr y_train Xte = Ok pred) →
               (∀ pred, ∃ v, accuracy_score y_test pred = Ok v) →
               (∀ pred, ∃ v, f1_macro y_test pred = Ok v) →
               (∀ Xtr Xte, LR Xtr y_train Xte = Raise e) →
               run = Raise e) as Hstop.
  { intros e HRF Hacc Hf1 HLR. rewrite Hrun. unfold Subsets.subsets.
    by rewrite (HarnessFacts.results_of_subsets_LR_Raise RF LR accuracy_score
                  f1_macro X_train X_test y_train y_test _ _ e). }
  pose proof (HarnessFacts.results_of_subsets_Raise RF LR accuracy_score
                f1_macro X_train X_test y_train y_test
                (Subsets.subsets X_columns imp_index)) as Hraise.
  pose proof (HarnessFacts.results_of_subsets_names RF LR accuracy_score
                f1_macro X_train X_test y_train y_test
                (Subsets.subsets X_columns imp_index)) as Hnames.
  destruct (results_of_subsets _ _ _ _ _ _ _ _ _) as [new|e0];
    cbn [mbind outcome_bind] in Hrun; rewrite Hrun.
  - split; [done|].
    split; [|split; [eauto|intros; rewrite <- Hrun; by apply Hstop]].
    intros scaler' results [= _ <-]. by rewrite (Hnames new).
  - split; [by intros e [= <-]; apply Hraise|]. split; [done|].
    split; [|intros; rewrite <- Hrun; by apply Hstop].
    intros Hnever. exfalso. by apply (Hnever e0), Hraise.
Qed.

Lemma subset_loop_stops_only_on_model_errors_witness :
  let X_columns := (ABT.aggregate_names ++ sample_acts)%list in
  let run :=
    Harness.evaluate_subsets sample_classifier sample_classifier
      sample_score sample_score
      sample_rows_train sample_rows_test ["pass"; "fail"] ["pass"] None
      (Subsets.subsets X_columns sample_imp_index) [] in
  (∀ e, run = Raise e →
        model_raises sample_classifier sample_classifier
          sample_score sample_score ["pass"; "fail"] ["pass"] e) ∧
  (∀ scaler' results, run = Ok (scaler', results) →
     (λ r, (Harness.Subset r, Harness.Model r)) <$> results =
       [("All Features", "RF"); ("All Features", "LR");
        ("Top 5 Features", "RF"); ("Top 5 Features", "LR");
        ("Engagement Features", "RF"); ("Engagement Features", "LR");
        ("Frequency Features", "RF"); ("Frequency Features", "LR")]) ∧
  ((∀ e, ¬ model_raises sample_classifier sample_classifier
             sample_score sample_score ["pass"; "fail"] ["pass"] e) →
   ∃ scaler' results, run = Ok (scaler', results)) ∧
  (∀ e, (∀ Xtr Xte, ∃ pred, sample_classifier Xtr ["pass"; "fail"] Xte = Ok pred) →
        (∀ pred, ∃ v, sample_score ["pass"] pred = Ok v) →
        (∀ pred, ∃ v, sample_score ["pass"] pred = Ok v) →
        (∀ Xtr Xte, sample_classifier Xtr ["pass"; "fail"] Xte = Raise e) →
        run = Raise e).
Proof.
  apply (subset_loop_stops_only_on_model_errors
           sample_classifier sample_classifier
           sample_score sample_score sample_rows_train sample_rows_test
           ["pass"; "fail"] ["pass"] sample_acts sample_imp_index None).
  - discriminate.
  - discriminate.
  - apply reverse_Permutation.
Defined.

(** ** Confusion matrix and accuracy *)

Module MetricFacts.
Import Metrics.

Lemma label_to_ind_Some (labels : list string) (l : string) (i : nat) :
  label_to_ind labels l = Some i → labels !! i = Some l.
Proof.
  revert i. induction labels as [|l' labels IH]; intros i; [done|].
  cbn [label_to_ind]. destruct (label_to_ind labels l) as [i'|].
  - intros [= <-]. by apply IH.
  - case_decide as Heq; [|done]. intros [= <-]. by rewrite Heq.
Qed.

Lemma label_to_ind_None (labels : list string) (l : string) :
  label_to_ind labels l = None ↔ l ∉ labels.
Proof.
  induction labels as [|l' labels IH]; [by split; [intros _ ?%elem_of_nil|]|].
  cbn [label_to_ind]. rewrite not_elem_of_cons.
  destruct (label_to_ind labels l) as [i'|] eqn:E.
  - split; [done|]. intros [_ Hno]. by apply IH in Hno.
  - case_decide as Heq; split; try done.
    + intros [Hne _]. by subst.
    + intros _. split; [congruence|by apply IH].
Qed.

Lemma ind_or_len_lt (labels : list string) (l : string) :
  (ind_or_len labels l < length labels)%nat ↔ l ∈ labels.
Proof.
  unfold ind_or_len. destruct (label_to_ind labels l) as [i|] eqn:E; cbn.
  - apply label_to_ind_Some in E. split; intros _.
    + by eapply list_elem_of_lookup_2.
    + by eapply lookup_lt_Some.
  - apply label_to_ind_None in E. split; [lia|done].
Qed.

Lemma ind_or_len_Some (labels : list string) (l : string) (i : nat) :
  (i < length labels)%nat →
  label_to_ind labels l = Some i ↔ ind_or_len labels l = i.
Proof.
  intros Hi. unfold ind_or_len.
  destruct (label_to_ind labels l) as [i'|]; cbn; split; try done.
  - by intros [= ->].
  - by intros ->.
  - lia.
Qed.

Lemma ind_or_len_inj (labels : list string) (t p : string) :
  t ∈ labels → ind_or_len labels t = ind_or_len labels p → t = p.
Proof.
  intros Ht%ind_or_len_lt Heq. unfold ind_or_len in *.
  destruct (label_to_ind labels t) as [i|] eqn:Et; cbn in *; [|lia].
  destruct (label_to_ind labels p) as [j|] eqn:Ep; cbn in *; [|lia].
  subst j. apply label_to_ind_Some in Et, Ep. congruence.
Qed.

Section counts.
Context {A : Type} (k1 k2 : A → nat) (n : nat) (l : list A).

Lemma length_count_matrix : length (count_matrix k1 k2 n l) = n.
Proof. unfold count_matrix. by rewrite length_fmap, length_seq. Qed.

Lemma matrix_sum_counts :
  matrix_sum (count_matrix k1 k2 n l) =
  Z.of_nat (length (filter (λ x, (k1 x < n)%nat ∧ (k2 x < n)%nat) l)).
Proof.
  unfold matrix_sum, count_matrix. rewrite <- list_fmap_compose.
  transitivity (foldr Z.add 0
    ((λ i, Z.of_nat (length (filter (λ x, k1 x = i)
                               (filter (λ x, k2 x ∈ seq 0 n) l)))) <$> seq 0 n)).
  { f_equal. apply list_fmap_ext. intros _ i _. cbn.
    transitivity (foldr Z.add 0
      ((λ j, Z.of_nat (length (filter (λ x, k2 x = j)
                                 (filter (λ x, k1 x = i) l)))) <$> seq 0 n)).
    { f_equal. apply list_fmap_ext. intros _ j _. rewrite list_filter_filter.
      do 2 f_equal. apply list_filter_iff. tauto. }
    rewrite sum_counts_by_key by apply NoDup_seq.
    rewrite !list_filter_filter. do 2 f_equal. apply list_filter_iff. tauto. }
  rewrite sum_counts_by_key by apply NoDup_seq.
  rewrite list_filter_filter. do 2 f_equal. apply list_filter_iff.
  intros x. rewrite !elem_of_seq. lia.
Qed.

Lemma trace_counts :
  trace (count_matrix k1 k2 n l) =
  Z.of_nat (length (filter (λ x, k1 x = k2 x ∧ (k1 x < n)%nat) l)).
Proof.
  unfold trace. rewrite length_count_matrix.
  transitivity (foldr Z.add 0
    ((λ i, Z.of_nat (length (filter (λ x, k1 x = i)
                               (filter (λ x, k1 x = k2 x) l)))) <$> seq 0 n)).
  { f_equal. apply list_fmap_ext. intros k i Hk.
    apply lookup_seq in Hk as [-> Hk]. cbn [Nat.add].
    unfold count_matrix. rewrite list_lookup_fmap, lookup_seq_lt by done.
    cbn. rewrite list_lookup_fmap, lookup_seq_lt by done. cbn.
    rewrite list_filter_filter. do 2 f_equal. apply list_filter_iff.
    intros x. split; [intros [-> <-]; done|intros [Hi Heq]; by rewrite <- Heq]. }
  rewrite sum_counts_by_key by apply NoDup_seq.
  rewrite list_filter_filter. do 2 f_equal. apply list_filter_iff.
  intros x. rewrite elem_of_seq. split; [intros [? ?]|intros [? ?]]; split;
    first [done|lia].
Qed.

End counts.

Lemma confusion_matrix_counts (y_true y_pred labels : list string) :
  length y_true = length y_pred → y_true ≠ [] →
  (∃ l, l ∈ labels ∧ l ∈ y_true) →
  confusion_matrix y_true y_pred labels =
    Ok (count_matrix (λ tp, ind_or_len labels tp.1) (λ tp, ind_or_len labels tp.2)
          (length labels) (zip y_true y_pred)).
Proof.
  intros Hlen Hne (l & Hl & Hly). unfold confusion_matrix.
  rewrite bool_decide_eq_false_2 by (by intros ?).
  rewrite bool_decide_eq_false_2
    by (intros ->; by apply elem_of_nil in Hl).
  rewrite bool_decide_eq_false_2 by done.
  rewrite bool_decide_eq_false_2.
  2:{ intros Hall. by apply (proj1 (Forall_forall _ _) Hall l). }
  f_equal. unfold count_matrix.
  apply list_fmap_ext. intros k i [-> Hi]%lookup_seq.
  apply list_fmap_ext. intros k' j [-> Hj]%lookup_seq. cbn [Nat.add].
  do 2 f_equal. apply list_filter_iff. intros [t p]. cbn.
  by rewrite !ind_or_len_Some.
Qed.

Lemma elem_of_sorted_unique (y : list string) (l : string) :
  l ∈ sorted_unique y ↔ l ∈ y.
Proof.
  unfold sorted_unique. by rewrite merge_sort_Permutation, elem_of_remove_dups.
Qed.

Lemma Z_of_nat_Pos (n : nat) : n ≠ O → Zpos (Pos.of_nat n) = Z.of_nat n.
Proof. intros Hn. rewrite <- positive_nat_Z, Nat2Pos.id; done. Qed.

End MetricFacts.

(** X14: for a non-empty test partition whose labels occur in the label
    column [y], and as many predictions, the confusion matrix over
    [sorted(y.unique())] is square with one row per label, its diagonal
    adds up to the number of right predictions, and the accuracy is that
    number over the number of samples, between 0 and 1.  When every
    prediction is a label of [y] too, the entries of the matrix add up to
    the number of samples. *)
Theorem confusion_matrix_matches_accuracy (y y_test pred : list string) :
  y_test ≠ [] →
  length y_test = length pred →
  y_test ⊆ y →
  let n := length y_test in
  let right := length (filter (λ tp, tp.1 = tp.2) (zip y_test pred)) in
  ∃ (cm : list (list Z)) (acc : Q),
    Metrics.confusion_matrix y_test pred (Metrics.sorted_unique y) = Ok cm ∧
    Metrics.accuracy_score y_test pred = Ok (Some acc) ∧
    length cm = length (Metrics.sorted_unique y) ∧
    trace cm = Z.of_nat right ∧
    acc = (trace cm # Pos.of_nat n) ∧
    (0 <= acc)%Q ∧ (acc <= 1)%Q ∧
    (pred ⊆ y → matrix_sum cm = Z.of_nat n).
Proof.
  intros Hne Hlen Hsub n right.
  set (labels := Metrics.sorted_unique y).
  assert (∀ t, t ∈ y_test → t ∈ labels) as Hlabels.
  { intros t Ht. apply MetricFacts.elem_of_sorted_unique. by apply Hsub. }
  assert (length (zip y_test pred) = n) as Hzip
    by (rewrite length_zip_with; unfold n; lia).
  assert (n ≠ O) as Hn by (unfold n; by destruct y_test).
  rewrite MetricFacts.confusion_matrix_counts; [|done|done|].
  2:{ destruct y_test as [|t ?]; [done|]. exists t.
      split; [apply Hlabels|]; left. }
  unfold Metrics.accuracy_score.
  rewrite bool_decide_eq_false_2 by (by intros ?).
  rewrite bool_decide_eq_false_2 by done.
  assert (trace (count_matrix (λ tp : string * string, ind_or_len labels tp.1)
                   (λ tp, ind_or_len labels tp.2) (length labels)
                   (zip y_test pred)) = Z.of_nat right) as Htrace.
  { rewrite MetricFacts.trace_counts. unfold right. do 2 f_equal.
    apply list_filter_iff_in.
    intros [t p] Htp. cbn. apply elem_of_zip_l in Htp as Ht.
    cbn in Ht. specialize (Hlabels t Ht). split.
    - intros [Heq _]. by apply (MetricFacts.ind_or_len_inj labels).
    - intros ->. split; [done|]. by apply MetricFacts.ind_or_len_lt. }
  assert (right ≤ n)%nat as Hright
    by (unfold right; rewrite <- Hzip; apply length_filter).
  do 2 eexists. split; [done|]. split; [done|].
  split; [apply MetricFacts.length_count_matrix|].
  split; [exact Htrace|]. split; [by rewrite Htrace|].
  split; [|split].
  - unfold Qle. cbn. lia.
  - unfold Qle. cbn. fold n. rewrite MetricFacts.Z_of_nat_Pos by done. lia.
  - intros Hpred. rewrite MetricFacts.matrix_sum_counts. f_equal.
    rewrite <- Hzip. f_equal. apply filter_Forall_id, Forall_forall.
    intros [t p] Htp. cbn.
    apply elem_of_zip_l in Htp as Ht. apply elem_of_zip_r in Htp as Hp.
    cbn in Ht, Hp. rewrite !MetricFacts.ind_or_len_lt. split.
    + by apply Hlabels.
    + apply MetricFacts.elem_of_sorted_unique. by apply Hpred.
Qed.

Lemma confusion_matrix_matches_accuracy_witness :
  ∃ (cm : list (list Z)) (acc : Q),
    Metrics.confusion_matrix sample_y_test sample_pred
      (Metrics.sorted_unique sample_y) = Ok cm ∧
    Metrics.accuracy_score sample_y_test sample_pred = Ok (Some acc) ∧
    length cm = length (Metrics.sorted_unique sample_y) ∧
    trace cm =
      Z.of_nat (length (filter (λ tp, tp.1 = tp.2) (zip sample_y_test sample_pred))) ∧
    acc = (trace cm # Pos.of_nat (length sample_y_test)) ∧
    (0 <= acc)%Q ∧ (acc <= 1)%Q ∧
    (sample_pred ⊆ sample_y → matrix_sum cm = Z.of_nat (length sample_y_test)).
Proof.
  apply (confusion_matrix_matches_accuracy sample_y sample_y_test sample_pred).
  - discriminate.
  - reflexivity.
  - apply (bool_decide_unpack _). by vm_compute.
Defined.

(** ** Failing runs *)

(** X15: on a log whose dates span fewer than six days the bucket width
    is 0 and the seven edges coincide: cell 1.4 stops with a [ValueError]
    instead of a [period] column, and so does the table of period
    totals. *)
Theorem short_timeline_has_no_periods (log : list event) (min_d max_d : Z) :
  date_min log = Some min_d →
  date_max log = Some max_d →
  max_d - min_d < 5 →
  Segmenter.period_len min_d max_d = 0 ∧
  Segmenter.period log = Raise (ValueError "Bin edges must be unique") ∧
  Charts.period_totals log = Raise (ValueError "Bin edges must be unique").
Proof.
  intros Hmin Hmax Hspan.
  assert (0 ≤ max_d - min_d) as Hpos.
  { pose proof (date_min_spec log) as H1. pose proof (date_max_spec log) as H2.
    rewrite Hmin in H1. rewrite Hmax in H2.
    destruct H1 as [(e & He & <-) _], H2 as [_ Hle]. specialize (Hle e He). lia. }
  pose proof (SegmenterFacts.period_of_short_timeline log min_d max_d Hmin Hmax
                ltac:(lia)) as Hraise.
  split; [unfold Segmenter.period_len; apply Z.div_small; lia|].
  split; [done|]. unfold Charts.period_totals. by rewrite Hraise.
Qed.

Lemma short_timeline_has_no_periods_witness :
  Segmenter.period_len 2 5 = 0 ∧
  Segmenter.period short_log = Raise (ValueError "Bin edges must be unique") ∧
  Charts.period_totals short_log = Raise (ValueError "Bin edges must be unique").
Proof.
  apply (short_timeline_has_no_periods short_log 2 5);
    [reflexivity | reflexivity | lia].
Defined.

(** X16: the table of cell 2 is built exactly when the log has events
    and no activity is named like one of the five aggregate columns or
    like [final_grade].  With such an activity one of the two joins stops
    with a [ValueError] on the overlapping column names; on a log without
    events the first join stops with a [MergeError]. *)
Theorem abt_fails_on_reserved_activity_names (log : list event)
    (vle_grades : gmap Z string) :
  ((∃ table, ABT.abt log vle_grades = Ok table) ↔
   log ≠ [] ∧ fresh_activities log) ∧
  (ABT.abt log vle_grades =
     Raise (ValueError "columns overlap but no suffix specified") ↔
   ∃ e, e ∈ log ∧ activity e ∈ reserved_names) ∧
  ((∃ msg, ABT.abt log vle_grades = Raise (MergeError msg)) ↔ log = []).
Proof.
  destruct (decide (log = [])) as [->|Hlog].
  { split; [split; [by intros [? ?]|by intros [? _]]|].
    split; [|split; [done|intros _; by eexists]].
    split; [done|]. by intros (e & ?%elem_of_nil & _). }
  destruct (decide (fresh_activities log)) as [Hfresh|Hno].
  - destruct (AssemblerFacts.abt_Ok log vle_grades Hlog Hfresh)
      as (table & Hok & _).
    split; [split; eauto|]. rewrite Hok. split; [|split; [by intros [? ?]|done]].
    split; [done|].
    intros (e & He & Hres). exfalso.
    by apply (proj1 (Forall_forall _ _) Hfresh e He).
  - pose proof (AssemblerFacts.abt_Raise log vle_grades Hno) as Hraise.
    rewrite Hraise. split; [split; [by intros [? ?]|by intros [_ ?]]|].
    split; [|split; [by intros [? ?]|done]].
    split; [intros _|done].
    apply not_Forall_Exists in Hno; [|apply _].
    apply Exists_exists in Hno as (e & He & Hres). cbn in Hres.
    apply dec_stable in Hres. eauto.
Qed.

(** X17: a student with events but without a label stops cell 3.1.  The
    student's row is in the table, so the label column [y] holds a [NaN],
    and the stratified split raises a [ValueError] before anything is
    drawn: "Input contains NaN" as soon as the log has two students. *)
Theorem unlabelled_student_stops_the_split (log : list event)
    (vle_grades : gmap Z string) (s : Z) :
  fresh_activities log →
  s ∈ students log →
  vle_grades !! s = None →
  ∃ table,
    ABT.assemble log vle_grades = Ok table ∧
    None ∈ Harness.final_grade_column table ∧
    length (Harness.final_grade_column table) = size (students log) ∧
    (∃ msg, Harness.train_test_split_checks (Harness.final_grade_column table) =
              Raise (ValueError msg)) ∧
    ((2 ≤ size (students log))%nat →
     Harness.train_test_split_checks (Harness.final_grade_column table) =
       Raise (ValueError "Input contains NaN")).
Proof.
  intros Hfresh Hs Hnone.
  assert (log ≠ []) as Hlog.
  { apply ABTFacts.elem_of_students in Hs as (e & He & _).
    intros ->. by apply elem_of_nil in He. }
  destruct (GradeFacts.assemble_Ok log vle_grades Hlog Hfresh)
    as (table & Hok & Hindex & Hloc).
  exists table. split; [done|].
  assert (None ∈ Harness.final_grade_column table) as Hnan.
  { unfold Harness.final_grade_column. apply list_elem_of_fmap. exists s. split.
    - destruct (Hloc s) as [-> _]. by rewrite Hnone.
    - rewrite merge_sort_Permutation. apply elem_of_elements. by rewrite Hindex. }
  assert (length (Harness.final_grade_column table) = size (students log))
    as Hlen.
  { unfold Harness.final_grade_column.
    rewrite length_fmap, merge_sort_Permutation, Hindex. done. }
  split; [done|]. split; [done|].
  unfold Harness.train_test_split_checks. cbv zeta. rewrite Hlen.
  unfold Harness.check_labels. rewrite (bool_decide_eq_true_2 (None ∈ _)) by done.
  cbn [mbind outcome_bind]. split.
  - case_bool_decide; eauto.
  - intros Hsize. rewrite bool_decide_eq_false_2; [done|].
    unfold Harness.n_train, Harness.n_test.
    pose proof (Nat.div_mod_eq (size (students log) + 3) 4).
    pose proof (Nat.mod_upper_bound (size (students log) + 3) 4). lia.
Qed.

Lemma unlabelled_student_stops_the_split_witness :
  ∃ table,
    ABT.assemble sample_log sample_grades = Ok table ∧
    None ∈ Harness.final_grade_column table ∧
    length (Harness.final_grade_column table) = size (students sample_log) ∧
    (∃ msg, Harness.train_test_split_checks (Harness.final_grade_column table) =
              Raise (ValueError msg)) ∧
    ((2 ≤ size (students sample_log))%nat →
     Harness.train_test_split_checks (Harness.final_grade_column table) =
       Raise (ValueError "Input contains NaN")).
Proof.
  apply (unlabelled_student_stops_the_split sample_log sample_grades 3).
  - unfold fresh_activities. apply (bool_decide_unpack _). by vm_compute.
  - vm_compute. reflexivity.
  - reflexivity.
Defined.
